(** * Nexus-Actions-Orchestrator: the secret-sealing boundary (cpp/crypto.cpp)

    A shallow embedding of [encrypt_secret] and of the libsodium entry
    points it calls, with the properties of the sealing operation proved
    about it.

    - C strings and byte buffers are lists of [ascii] (one [ascii] is one
      [char] or [unsigned char]); [size_t] values are [N]; the [int] status
      codes are [Z]; a pointer argument that may be null is an [option].
    - The sizes that occur are lengths of objects that live together in one
      address space (the plaintext, the ciphertext vector, the caller's
      buffer), so the [size_t] sums of the source do not wrap.  The
      [unsigned int] accumulators of the codec do wrap, and the macro
      [sodium_base64_ENCODED_LEN] relies on it: there the wrap-around is
      written out.  The macro with the wrap-around of [size_t] as well is
      [sodium_base64_ENCODED_LEN_size_t].
    - libsodium's base64 codec is embedded as the library implements it for
      the arguments [encrypt_secret] passes.  The sealed box is a parameter:
      a function of the randomness it draws, the message and the key, with
      its contract a hypothesis where a statement needs it.
    - Besides what the caller can observe (the status, the output buffer,
      the capacity), the outcome of a call records the library calls made,
      in order, so that the order of the stages can be stated.

    [crypto_init] forwards to [sodium_init], embedded below in what the
    return value depends on; [crypto_free] forwards to [sodium_free] and is
    not embedded. *)

From Stdlib Require Import NArith ZArith Ascii String List Bool Lia.
Import ListNotations.

Local Open Scope N_scope.

(** Division and remainder by constants are given to [lia] as equations. *)
Ltac Zify.zify_post_hook ::= Z.to_euclidean_division_equations.

(* ===================================================================== *)
(** * C strings and buffers *)
(* ===================================================================== *)

Module CStr.

Definition NUL : ascii := Ascii.zero.

(** [strlen s]: the number of characters before the first NUL of the memory
    that starts at [s].  The list is the memory the pointer designates; its
    end stands for the terminator of a string that holds no NUL. *)
Fixpoint strlen (s : list ascii) : nat :=
  match s with
  | [] => 0%nat
  | c :: s' => if (c =? NUL)%char then 0%nat else S (strlen s')
  end.

(** The C string a pointer designates: the characters [strlen] counts. *)
Definition c_str (s : list ascii) : list ascii := firstn (strlen s) s.

(** No character of [s] is NUL. *)
Definition nul_free (s : list ascii) : bool :=
  forallb (fun c => negb (c =? NUL)%char) s.

(** A store of [data] at the start of the buffer [buf].  The buffer keeps
    its size: what would fall past its end (an overflow in C) is dropped. *)
Definition overwrite (buf data : list ascii) : list ascii :=
  firstn (length buf) data ++ skipn (length data) buf.

(** [std::vector<unsigned char> v(n)]: [n] value-initialised bytes. *)
Definition vector (n : N) : list ascii := repeat NUL (N.to_nat n).

End CStr.
Import CStr.

(* ===================================================================== *)
(** * libsodium's base64 codec (sodium/codecs.c, sodium/utils.h)

    The codec as [encrypt_secret] calls it: variant
    [sodium_base64_VARIANT_ORIGINAL], [ignore = NULL], [b64_end = NULL].
    The library computes the alphabet maps with constant-time masks; here
    they are the case distinctions those masks select on a character value
    in 0..255, which is what the decoder is given where [char] is unsigned
    and, for the 7-bit characters, everywhere.  The masks on the [int] the
    decoder takes, and the decoder where [char] is signed, follow in
    [masks] and [sodium_base642bin_on]. *)
(* ===================================================================== *)

Module codecs.

Definition sodium_base64_VARIANT_ORIGINAL : N := 1.

(** [unsigned int] arithmetic: 32 bits, wrapping. *)
Definition uint (x : N) : N := x mod 2 ^ 32.
Definition uint_sub (a b : N) : N := uint (a + 2 ^ 32 - uint b).
Definition uint_not (a : N) : N := uint (N.lxor a (N.ones 32)).

(** The macro of sodium/utils.h:
<<
  #define sodium_base64_ENCODED_LEN(BIN_LEN, VARIANT) \
    (((BIN_LEN) / 3U) * 4U + \
    ((((BIN_LEN) - ((BIN_LEN) / 3U) * 3U) | (((BIN_LEN) - ((BIN_LEN) / 3U) * 3U) >> 1)) & 1U) * \
     (4U - (~((((VARIANT) & 2U) >> 1) - 1U) & (3U - ((BIN_LEN) - ((BIN_LEN) / 3U) * 3U)))) + 1U)
>>
    on a [BIN_LEN] for which its [size_t] operations do not wrap. *)
Definition sodium_base64_ENCODED_LEN (BIN_LEN VARIANT : N) : N :=
  let r := BIN_LEN - (BIN_LEN / 3) * 3 in
  (BIN_LEN / 3) * 4
  + N.land (N.lor r (N.shiftr r 1)) 1
    * (4 - N.land (uint_not (uint_sub (N.shiftr (N.land VARIANT 2) 1) 1)) (3 - r))
  + 1.

(** The 6-bit value [x] as its character of the standard alphabet. *)
Definition b64_byte_to_char (x : N) : N :=
  if x <? 26 then x + 65                       (* x + 'A' *)
  else if x <? 52 then x + (97 - 26)           (* x + ('a' - 26) *)
  else if x <? 62 then x - 4                   (* x + ('0' - 52) *)
  else if x =? 62 then 43                      (* '+' *)
  else if x =? 63 then 47                      (* '/' *)
  else 0.

(** The character value [c], in 0..255, as its 6-bit value, [0xFF] when it
    is not in the alphabet. *)
Definition b64_char_to_byte (c : N) : N :=
  let x :=
    if (65 <=? c) && (c <=? 90) then c - 65            (* 'A'..'Z' *)
    else if (97 <=? c) && (c <=? 122) then c - (97 - 26) (* 'a'..'z' *)
    else if (48 <=? c) && (c <=? 57) then c + 4        (* '0'..'9' *)
    else if c =? 43 then 62
    else if c =? 47 then 63
    else 0 in
  if (x =? 0) && negb (c =? 65) then 255 else x.

(** ** sodium_bin2base64 *)

(** The inner loop [while (acc_len >= 6) { acc_len -= 6; b64[b64_pos++] = ... }].
    Every turn takes 6 off [acc_len], so [acc_len] turns are enough. *)
Fixpoint emit_sextets (fuel : nat) (acc acc_len : N) (b64 : list ascii)
  : N * list ascii :=
  match fuel with
  | O => (acc_len, b64)
  | S fuel' =>
      if 6 <=? acc_len then
        let acc_len := acc_len - 6 in
        emit_sextets fuel' acc acc_len
          (b64 ++ [ascii_of_N (b64_byte_to_char (N.land (N.shiftr acc acc_len) 63))])
      else (acc_len, b64)
  end.

(** The loop [while (bin_pos < bin_len)] over the bytes still to read. *)
Fixpoint bin2base64_loop (bin : list ascii) (acc acc_len : N) (b64 : list ascii)
  : N * N * list ascii :=
  match bin with
  | [] => (acc, acc_len, b64)
  | b :: bin' =>
      let acc := uint (N.shiftl acc 8 + N_of_ascii b) in
      let acc_len := acc_len + 8 in
      let '(acc_len, b64) := emit_sextets (N.to_nat acc_len) acc acc_len b64 in
      bin2base64_loop bin' acc acc_len b64
  end.

(** The length of the text, without its terminator, as the function
    computes it ([nibbles * 4], and 4 more for a remainder). *)
Definition b64_len_of (bin_len : N) : N :=
  let nibbles := bin_len / 3 in
  let remainder := bin_len - 3 * nibbles in
  if remainder =? 0 then nibbles * 4 else nibbles * 4 + 4.

(** What follows the loop: a last partial sextet, shifted up, and ['='] up
    to [b64_len]. *)
Definition bin2base64_end (st : N * N * list ascii) (b64_len : N) : list ascii :=
  let '(acc, acc_len, b64) := st in
  let b64 :=
    if 0 <? acc_len
    then b64 ++ [ascii_of_N (b64_byte_to_char (N.land (uint (N.shiftl acc (6 - acc_len))) 63))]
    else b64 in
  b64 ++ repeat "="%char (N.to_nat b64_len - length b64).

(** The characters of the text the function stores, before the NUL. *)
Definition base64_text (bin : list ascii) : list ascii :=
  bin2base64_end (bin2base64_loop bin 0 0 []) (b64_len_of (N.of_nat (length bin))).

(** [sodium_bin2base64(b64, b64_maxlen, bin, bin_len, variant)]: [None] when
    the library stops the process ([sodium_misuse], for
    [b64_maxlen <= b64_len]); otherwise the [b64_maxlen] characters stored
    at [b64] (the text, then NUL up to [b64_maxlen]) and the pointer
    returned, which is [b64] itself and so not null ([true]). *)
Definition sodium_bin2base64 (b64_maxlen : N) (bin : list ascii)
  : option (bool * list ascii) :=
  if b64_maxlen <=? b64_len_of (N.of_nat (length bin)) then None
  else
    let text := base64_text bin in
    Some (true, text ++ repeat NUL (N.to_nat b64_maxlen - length text)).

(** ** sodium_base642bin *)

(** The main loop, over the characters from [b64_pos] on.  It returns [ret],
    the characters from the final [b64_pos] on, [acc], [acc_len] and the
    bytes stored in [bin] (their number is [bin_pos]). *)
Fixpoint base642bin_loop (bin_maxlen : N) (b64 : list ascii) (acc acc_len : N)
  (bin : list ascii) : Z * list ascii * N * N * list ascii :=
  match b64 with
  | [] => (0%Z, [], acc, acc_len, bin)
  | c :: b64' =>
      let d := b64_char_to_byte (N_of_ascii c) in
      if d =? 255 then (0%Z, b64, acc, acc_len, bin)   (* ignore == NULL: break *)
      else
        let acc := uint (N.shiftl acc 6 + d) in
        let acc_len := acc_len + 6 in
        if 8 <=? acc_len then
          let acc_len := acc_len - 8 in
          if bin_maxlen <=? N.of_nat (length bin)
          then ((-1)%Z, b64, acc, acc_len, bin)        (* ERANGE, break *)
          else base642bin_loop bin_maxlen b64' acc acc_len
                 (bin ++ [ascii_of_N (N.land (N.shiftr acc acc_len) 255)])
        else base642bin_loop bin_maxlen b64' acc acc_len bin
  end.

(** [_sodium_base642bin_skip_padding] with [ignore == NULL]. *)
Fixpoint skip_padding (b64 : list ascii) (padding_len : nat) {struct padding_len}
  : Z * list ascii :=
  match padding_len with
  | O => (0%Z, b64)
  | S n =>
      match b64 with
      | [] => ((-1)%Z, b64)                             (* ERANGE *)
      | c :: b64' =>
          if (c =? "=")%char then skip_padding b64' n
          else ((-1)%Z, b64)                            (* EINVAL *)
      end
  end.

(** What follows the loop: the check of the bits left in [acc], the
    padding, and the check that every character was read. *)
Definition base642bin_end (st : Z * list ascii * N * N * list ascii)
  : Z * list ascii * N :=
  let '(ret, rest, acc, acc_len, bin) := st in
  let '(ret, rest) :=
    if (4 <? acc_len) || negb (N.land acc (N.shiftl 1 acc_len - 1) =? 0)
    then ((-1)%Z, rest)
    else if (ret =? 0)%Z then skip_padding rest (N.to_nat (acc_len / 2))
    else (ret, rest) in
  if negb (ret =? 0)%Z then (ret, bin, 0)                (* bin_pos = 0 *)
  else
    match rest with
    | [] => (0%Z, bin, N.of_nat (length bin))
    | _ :: _ => ((-1)%Z, bin, N.of_nat (length bin))    (* EINVAL *)
    end.

(** [sodium_base642bin(bin, bin_maxlen, b64, b64_len, NULL, &bin_len, NULL,
    variant)] on the [b64_len] characters [b64]: the value returned, the
    bytes stored at the start of [bin], and [*bin_len]. *)
Definition sodium_base642bin (bin_maxlen : N) (b64 : list ascii)
  : Z * list ascii * N :=
  base642bin_end (base642bin_loop bin_maxlen b64 0 0 []).

End codecs.

(* ===================================================================== *)
(** * The library as [encrypt_secret] sees it *)
(* ===================================================================== *)

Definition crypto_box_PUBLICKEYBYTES : N := 32.
Definition crypto_box_MACBYTES : N := 16.
Definition crypto_box_SEALBYTES : N := crypto_box_PUBLICKEYBYTES + crypto_box_MACBYTES.

(** The three library functions the operation calls.  Each takes the values
    the call reads and returns the value of the call with the bytes it
    stores through its output pointer.
    - [sodium_base642bin bin_maxlen b64]: the [int] returned, the bytes
      stored at [bin], and [*bin_len];
    - [crypto_box_seal rnd m pk]: the [int] returned and the bytes stored at
      [c]; [rnd] is the randomness the call draws for its ephemeral key;
    - [sodium_bin2base64 b64_maxlen bin]: whether the pointer returned is
      non-null, and the characters stored at [b64]; [None] when the library
      stops the process instead of returning. *)
Class Sodium := {
  entropy : Type;
  sodium_base642bin : N -> list ascii -> Z * list ascii * N;
  crypto_box_seal : entropy -> list ascii -> list ascii -> Z * list ascii;
  sodium_bin2base64 : N -> list ascii -> option (bool * list ascii)
}.

(** The library calls a run makes, in order, each with what it was given. *)
Inductive call : Type :=
| Call_base642bin (bin_maxlen : N) (b64 : list ascii)
| Call_box_seal (m pk : list ascii)
| Call_bin2base64 (b64_maxlen : N) (bin : list ascii).

(** What the caller observes when [encrypt_secret] returns: the value
    returned, the contents of [output] and [*output_len] (of the objects
    that exist), and the library calls that were made. *)
Record outcome : Type := Returned {
  status : Z;
  output_after : option (list ascii);
  output_len_after : option N;
  calls : list call
}.

(** The status codes of crypto.cpp. *)
Definition Success : Z := 0.
Definition InvalidArgument : Z := -1.
Definition InvalidKeyEncoding : Z := -2.
Definition SealingFailed : Z := -3.
Definition BufferTooSmall : Z := -4.
Definition EncodingFailed : Z := -5.

Section EncryptSecret.

Context {L : Sodium}.

(** crypto.cpp, lines 14-78.  [None]: the process was stopped inside the
    library. *)
Definition encrypt_secret (rnd : entropy)
  (public_key_b64 plaintext output : option (list ascii))
  (output_len : option N) : option outcome :=
  match public_key_b64, plaintext, output, output_len with
  | Some public_key_b64, Some plaintext, Some output, Some output_len =>
      (* Decode base64 public key *)
      let public_key_len := strlen public_key_b64 in
      let public_key := vector crypto_box_PUBLICKEYBYTES in
      let b64 := firstn public_key_len public_key_b64 in
      let bin_maxlen := N.of_nat (length public_key) in
      let '(ret, stored, decoded_len) := sodium_base642bin bin_maxlen b64 in
      let public_key := overwrite public_key stored in
      let log := [Call_base642bin bin_maxlen b64] in
      if negb (ret =? 0)%Z then
        Some (Returned (-2) (Some output) (Some output_len) log)
      else
        (* Encrypt using sealed box *)
        let plaintext_len := strlen plaintext in
        let ciphertext_len := crypto_box_SEALBYTES + N.of_nat plaintext_len in
        let ciphertext := vector ciphertext_len in
        let m := firstn plaintext_len plaintext in
        let '(ret, stored) := crypto_box_seal rnd m public_key in
        let ciphertext := overwrite ciphertext stored in
        let log := log ++ [Call_box_seal m public_key] in
        if negb (ret =? 0)%Z then
          Some (Returned (-3) (Some output) (Some output_len) log)
        else
          (* Encode to base64 *)
          let b64_len :=
            codecs.sodium_base64_ENCODED_LEN ciphertext_len
              codecs.sodium_base64_VARIANT_ORIGINAL in
          if output_len <? b64_len then
            Some (Returned (-4) (Some output) (Some b64_len) log)
          else
            let log := log ++ [Call_bin2base64 output_len ciphertext] in
            match sodium_bin2base64 output_len ciphertext with
            | None => None
            | Some (b64_output, stored) =>
                let output := overwrite output stored in
                if negb b64_output then
                  Some (Returned (-5) (Some output) (Some output_len) log)
                else
                  Some (Returned 0 (Some output)
                          (Some (N.of_nat (strlen output))) log)
            end
  | _, _, _, _ => Some (Returned (-1) output output_len [])
  end.

End EncryptSecret.

(** libsodium: its codec, the decoder on character values in 0..255, and a
    sealing primitive [seal] over the randomness [E]. *)
Definition libsodium (E : Type)
  (seal : E -> list ascii -> list ascii -> Z * list ascii) : Sodium :=
  {| entropy := E;
     sodium_base642bin := codecs.sodium_base642bin;
     crypto_box_seal := seal;
     sodium_bin2base64 := codecs.sodium_bin2base64 |}.


(* ===================================================================== *)
(** * Reference definitions used in the statements *)
(* ===================================================================== *)

(** Base64 by groups of three bytes (RFC 4648, section 4), against which
    the library's accumulator loops are checked. *)
Definition b64_char (x : N) : ascii := ascii_of_N (codecs.b64_byte_to_char x).

Fixpoint rfc4648 (bin : list ascii) : list ascii :=
  match bin with
  | [] => []
  | [b0] =>
      let n0 := N_of_ascii b0 in
      [b64_char (n0 / 4); b64_char (n0 mod 4 * 16); "="%char; "="%char]
  | [b0; b1] =>
      let n0 := N_of_ascii b0 in
      let n1 := N_of_ascii b1 in
      [b64_char (n0 / 4); b64_char (n0 mod 4 * 16 + n1 / 16);
       b64_char (n1 mod 16 * 4); "="%char]
  | b0 :: b1 :: b2 :: bin' =>
      let n0 := N_of_ascii b0 in
      let n1 := N_of_ascii b1 in
      let n2 := N_of_ascii b2 in
      b64_char (n0 / 4) :: b64_char (n0 mod 4 * 16 + n1 / 16)
      :: b64_char (n1 mod 16 * 4 + n2 / 64) :: b64_char (n2 mod 64)
      :: rfc4648 bin'
  end.

(** ** The stages of a call, read off [encrypt_secret] *)

Section Stages.

Context {L : Sodium}.

(** Lines 25-40: whether the decoder returned 0 on the key string, and the
    32-byte vector it stored into, as the sealing primitive then reads it. *)
Definition key_decodes (public_key_b64 : list ascii) : bool :=
  (fst (fst (sodium_base642bin crypto_box_PUBLICKEYBYTES (c_str public_key_b64))) =? 0)%Z.

Definition key_bytes (public_key_b64 : list ascii) : list ascii :=
  overwrite (vector crypto_box_PUBLICKEYBYTES)
    (snd (fst (sodium_base642bin crypto_box_PUBLICKEYBYTES (c_str public_key_b64)))).

(** Lines 43-54: the size of the ciphertext vector, whether the primitive
    returned 0, and the vector after the primitive stored into it. *)
Definition ciphertext_len (plaintext : list ascii) : N :=
  crypto_box_SEALBYTES + N.of_nat (strlen plaintext).

Definition seals (rnd : entropy) (public_key_b64 plaintext : list ascii) : bool :=
  (fst (crypto_box_seal rnd (c_str plaintext) (key_bytes public_key_b64)) =? 0)%Z.

Definition ciphertext_bytes (rnd : entropy) (public_key_b64 plaintext : list ascii)
  : list ascii :=
  overwrite (vector (ciphertext_len plaintext))
    (snd (crypto_box_seal rnd (c_str plaintext) (key_bytes public_key_b64))).

(** Line 57: the buffer size the call asks for. *)
Definition required_len (plaintext : list ascii) : N :=
  codecs.sodium_base64_ENCODED_LEN (ciphertext_len plaintext)
    codecs.sodium_base64_VARIANT_ORIGINAL.

(** The three library calls of a full run, in the order of the source. *)
Definition decode_call (public_key_b64 : list ascii) : call :=
  Call_base642bin crypto_box_PUBLICKEYBYTES (c_str public_key_b64).

Definition seal_call (public_key_b64 plaintext : list ascii) : call :=
  Call_box_seal (c_str plaintext) (key_bytes public_key_b64).

Definition encode_call (rnd : entropy) (public_key_b64 plaintext : list ascii)
  (output_len : N) : call :=
  Call_bin2base64 output_len (ciphertext_bytes rnd public_key_b64 plaintext).

(** Lines 64-70 over libsodium's encoder: the characters stored in the
    caller's buffer, the text of the ciphertext and NUL up to the capacity
    given. *)
Definition stored_text (rnd : entropy) (public_key_b64 plaintext : list ascii)
  (output_len : N) : list ascii :=
  let text := codecs.base64_text (ciphertext_bytes rnd public_key_b64 plaintext) in
  text ++ repeat NUL (N.to_nat output_len - length text).

End Stages.

(** ** Instances for the examples *)

(** A stand-in for the sealed box, total and without secrets: the 48-byte
    prefix is the recipient's key and a constant tag, the plaintext follows.
    It has the shape of the primitive's contract (status 0, overhead
    [crypto_box_SEALBYTES], an opening that inverts it). *)
Definition toy_seal (rnd : unit) (m pk : list ascii) : Z * list ascii :=
  (0%Z, pk ++ repeat "t"%char 16 ++ m).

Definition toy_open (c pk sk : list ascii) : option (list ascii) :=
  Some (skipn 48 c).

Definition toy_keypair (pk sk : list ascii) : Prop :=
  length pk = 32%nat /\ sk = rev pk.

(** The key of the specification's end-to-end scenario and its 32 bytes. *)
Definition scenario_key_b64 : list ascii :=
  list_ascii_of_string "Zm9vYmFyZm9vYmFyZm9vYmFyZm9vYmFyZm9vYmFyMDA=".

Definition scenario_key : list ascii :=
  list_ascii_of_string "foobarfoobarfoobarfoobarfoobar00".

Definition hello : list ascii := list_ascii_of_string "hello".

(** A key string that decodes to three bytes, not 32. *)
Definition short_key_b64 : list ascii := list_ascii_of_string "Zm9v".

(** A caller's buffer of [n] characters, filled with ['#']. *)
Definition buffer (n : nat) : list ascii := repeat "#"%char n.

(** ** Further instances and predicates *)

(** A key of 33 bytes, a line feed, and a key text without its padding. *)
Definition long_key : list ascii := scenario_key ++ ["!"%char].
Definition newline : ascii := "010"%char.
Definition unpadded_key_b64 : list ascii := list_ascii_of_string "Zm8".

(** What the library asks of the arguments of a call: the decoder is given
    the size of the key vector and a string without NUL; the primitive a key
    of [crypto_box_PUBLICKEYBYTES] bytes and a message without NUL; the
    encoder a ciphertext with its [crypto_box_SEALBYTES] bytes of overhead
    and room for the text and its terminator. *)
Definition call_in_contract (c : call) : Prop :=
  match c with
  | Call_base642bin bin_maxlen b64 =>
      bin_maxlen = crypto_box_PUBLICKEYBYTES /\ nul_free b64 = true
  | Call_box_seal m pk =>
      N.of_nat (length pk) = crypto_box_PUBLICKEYBYTES /\ nul_free m = true
  | Call_bin2base64 b64_maxlen bin =>
      crypto_box_SEALBYTES <= N.of_nat (length bin)
      /\ codecs.sodium_base64_ENCODED_LEN (N.of_nat (length bin))
           codecs.sodium_base64_VARIANT_ORIGINAL <= b64_maxlen
  end.

(* ===================================================================== *)
(** * Initialisation (sodium/core.c and crypto.cpp, lines 10-12) *)
(* ===================================================================== *)

Module core.

(** What one call of [sodium_init] meets in the process: the values
    [sodium_crit_enter] and [sodium_crit_leave] return, and whether
    [randombytes_stir] finds its entropy source (it stops the process when
    it does not). *)
Record env : Type := {
  crit_enter : Z;
  entropy_source : bool;
  crit_leave : Z
}.

(** [sodium_init] over the process-wide flag [initialized]: the value
    returned and the flag after the call; [None] when the process was
    stopped. *)
Definition sodium_init (e : env) (initialized : bool) : option (Z * bool) :=
  if negb (crit_enter e =? 0)%Z then Some ((-1)%Z, initialized)
  else if initialized then
    if negb (crit_leave e =? 0)%Z then Some ((-1)%Z, initialized)
    else Some (1%Z, initialized)
  else
    if negb (entropy_source e) then None
    else
      let initialized := true in
      if negb (crit_leave e =? 0)%Z then Some ((-1)%Z, initialized)
      else Some (0%Z, initialized).

End core.

(** crypto.cpp, lines 10-12. *)
Definition crypto_init (e : core.env) (initialized : bool) : option (Z * bool) :=
  core.sodium_init e initialized.

(** The values successive calls of [crypto_init] return in one process, up
    to the call that stops it. *)
Fixpoint crypto_init_calls (es : list core.env) (initialized : bool) : list Z :=
  match es with
  | [] => []
  | e :: es' =>
      match crypto_init e initialized with
      | None => []
      | Some (ret, initialized) => ret :: crypto_init_calls es' initialized
      end
  end.

(** A process in which the lock and the entropy source work. *)
Definition healthy : core.env :=
  {| core.crit_enter := 0; core.entropy_source := true; core.crit_leave := 0 |}.


(* ===================================================================== *)
(** * The decoder where [char] is signed

    [codecs.b64_char_to_byte] above takes the character as its value in
    0..255.  The library function takes an [int], converted from a plain
    [char]: where [char] is signed, a byte of 0x80 or more reaches it as a
    negative number, on which its masks select 63 and not 0xFF.  The two
    agree on every 7-bit character.  Here the function is embedded with its
    masks, on the [int] it is given, and the decoder for either signedness
    of [char]. *)
(* ===================================================================== *)

Module masks.

(** [(unsigned int) z] for an [int] [z]. *)
Definition u32 (z : Z) : N := Z.to_N (z mod 2 ^ 32).

(** The comparison macros of sodium/codecs.c, on [unsigned int]:
<<
  #define EQ(x, y) ((((0U - ((unsigned int) (x) ^ (unsigned int) (y))) >> 8) & 0xFF) ^ 0xFF)
  #define GT(x, y) ((((unsigned int) (y) - (unsigned int) (x)) >> 8) & 0xFF)
  #define GE(x, y) (GT(y, x) ^ 0xFF)
  #define LT(x, y) GT(y, x)
  #define LE(x, y) GE(y, x)
>> *)
Definition EQ (x y : N) : N :=
  N.lxor (N.land (N.shiftr (codecs.uint_sub 0 (N.lxor x y)) 8) 255) 255.
Definition GT (x y : N) : N := N.land (N.shiftr (codecs.uint_sub y x) 8) 255.
Definition GE (x y : N) : N := N.lxor (GT y x) 255.
Definition LT (x y : N) : N := GT y x.
Definition LE (x y : N) : N := GE y x.

(** [b64_char_to_byte(int c)]. *)
Definition b64_char_to_byte (c : Z) : N :=
  let uc := u32 c in
  let x :=
    N.lor (N.lor (N.lor (N.lor
      (N.land (N.land (GE uc 65) (LE uc 90)) (u32 (c - 65)))
      (N.land (N.land (GE uc 97) (LE uc 122)) (u32 (c - (97 - 26)))))
      (N.land (N.land (GE uc 48) (LE uc 57)) (u32 (c - (48 - 52)))))
      (N.land (EQ uc 43) 62))
      (N.land (EQ uc 47) 63) in
  N.lor x (N.land (EQ x 0) (N.lxor (EQ uc 65) 255)).

End masks.

(** A [char] as the [int] it converts to. *)
Definition char_as_int (char_signed : bool) (c : ascii) : Z :=
  let n := Z.of_N (N_of_ascii c) in
  if char_signed && (128 <=? n)%Z then (n - 256)%Z else n.

(** The main loop of [sodium_base642bin] over the value [to_byte] gives
    each character; [codecs.base642bin_loop] is the loop over
    [codecs.b64_char_to_byte]. *)
Fixpoint base642bin_loop_on (to_byte : ascii -> N) (bin_maxlen : N)
  (b64 : list ascii) (acc acc_len : N) (bin : list ascii)
  : Z * list ascii * N * N * list ascii :=
  match b64 with
  | [] => (0%Z, [], acc, acc_len, bin)
  | c :: b64' =>
      let d := to_byte c in
      if d =? 255 then (0%Z, b64, acc, acc_len, bin)
      else
        let acc := codecs.uint (N.shiftl acc 6 + d) in
        let acc_len := acc_len + 6 in
        if 8 <=? acc_len then
          let acc_len := acc_len - 8 in
          if bin_maxlen <=? N.of_nat (length bin)
          then ((-1)%Z, b64, acc, acc_len, bin)
          else base642bin_loop_on to_byte bin_maxlen b64' acc acc_len
                 (bin ++ [ascii_of_N (N.land (N.shiftr acc acc_len) 255)])
        else base642bin_loop_on to_byte bin_maxlen b64' acc acc_len bin
  end.

(** The character's value as the library computes it. *)
Definition char_to_byte (char_signed : bool) (c : ascii) : N :=
  masks.b64_char_to_byte (char_as_int char_signed c).

(** [sodium_base642bin] where [char] is signed or not. *)
Definition sodium_base642bin_on (char_signed : bool) (bin_maxlen : N)
  (b64 : list ascii) : Z * list ascii * N :=
  codecs.base642bin_end
    (base642bin_loop_on (char_to_byte char_signed) bin_maxlen b64 0 0 []).

(** libsodium where [char] is signed or not. *)
Definition libsodium_on (char_signed : bool) (E : Type)
  (seal : E -> list ascii -> list ascii -> Z * list ascii) : Sodium :=
  {| entropy := E;
     sodium_base642bin := sodium_base642bin_on char_signed;
     crypto_box_seal := seal;
     sodium_bin2base64 := codecs.sodium_bin2base64 |}.

(** The character whose value the decoder gives [c]: where [char] is
    signed a byte of 0x80 or more is read as ['/']. *)
Definition read_as (char_signed : bool) (c : ascii) : ascii :=
  if char_signed && (128 <=? N_of_ascii c) then "/"%char else c.

(** Every character of [s] is below 0x80. *)
Definition seven_bit (s : list ascii) : bool :=
  forallb (fun c => N_of_ascii c <? 128) s.

(** The 256 characters. *)
Definition all_chars : list ascii :=
  map (fun n => ascii_of_N (N.of_nat n)) (seq 0 256).

(** ** The macro on [size_t] *)

(** [size_t] arithmetic: 64 bits, wrapping. *)
Definition size_t (x : N) : N := x mod 2 ^ 64.
Definition size_t_sub (a b : N) : N := size_t (a + 2 ^ 64 - size_t b).

(** [sodium_base64_ENCODED_LEN] with every operation on [size_t]. *)
Definition sodium_base64_ENCODED_LEN_size_t (BIN_LEN VARIANT : N) : N :=
  let r := size_t_sub BIN_LEN (size_t (BIN_LEN / 3 * 3)) in
  size_t
    (size_t
       (size_t (BIN_LEN / 3 * 4)
        + size_t (N.land (N.lor r (N.shiftr r 1)) 1
                  * size_t_sub 4
                      (N.land (codecs.uint_not
                                 (codecs.uint_sub
                                    (N.shiftr (N.land VARIANT 2) 1) 1))
                              (size_t_sub 3 r))))
     + 1).

(** ** Further instances *)

(** Plaintext memory with a zero byte: "hello", NUL, "tail". *)
Definition hello_nul_tail : list ascii :=
  hello ++ NUL :: list_ascii_of_string "tail".

(** The key bytes 41 41 41 FF. *)
Definition high_byte_key : list ascii :=
  list_ascii_of_string "AAA" ++ [ascii_of_N 255].


(* ===================================================================== *)
(** * Lists, C strings, buffers *)
(* ===================================================================== *)

Lemma list_ind3 {A} (P : list A -> Prop) :
  P [] -> (forall a, P [a]) -> (forall a b, P [a; b]) ->
  (forall a b c l, P l -> P (a :: b :: c :: l)) ->
  forall l, P l.
Proof.
  intros H0 H1 H2 H3.
  fix IH 1.
  intros [|a [|b [|c l]]];
    [exact H0 | apply H1 | apply H2 | apply H3, IH].
Qed.

Lemma list_ind4 {A} (P : list A -> Prop) :
  P [] -> (forall a, P [a]) -> (forall a b, P [a; b]) ->
  (forall a b c, P [a; b; c]) ->
  (forall a b c d l, P l -> P (a :: b :: c :: d :: l)) ->
  forall l, P l.
Proof.
  intros H0 H1 H2 H3 H4.
  fix IH 1.
  intros [|a [|b [|c [|d l]]]];
    [exact H0 | apply H1 | apply H2 | apply H3 | apply H4, IH].
Qed.

Lemma strlen_le s : (strlen s <= length s)%nat.
Proof.
  induction s as [|c s IH]; simpl; [lia|].
  destruct (c =? NUL)%char; lia.
Qed.

Lemma strlen_nul_free s : nul_free s = true -> strlen s = length s.
Proof.
  induction s as [|c s IH]; simpl; [reflexivity|].
  intros H. apply andb_true_iff in H as [Hc Hs].
  apply negb_true_iff in Hc. rewrite Hc. f_equal. auto.
Qed.

Lemma strlen_app_nul s t : nul_free s = true -> strlen (s ++ NUL :: t) = length s.
Proof.
  induction s as [|c s IH]; simpl; [reflexivity|].
  intros H. apply andb_true_iff in H as [Hc Hs].
  apply negb_true_iff in Hc. rewrite Hc. f_equal. auto.
Qed.

Lemma c_str_nul_free s : nul_free (c_str s) = true.
Proof.
  unfold c_str. induction s as [|c s IH]; simpl; [reflexivity|].
  destruct (c =? NUL)%char eqn:E; simpl; [reflexivity|].
  rewrite E. simpl. exact IH.
Qed.

Lemma c_str_of_nul_free s : nul_free s = true -> c_str s = s.
Proof.
  intros H. unfold c_str. rewrite (strlen_nul_free _ H). apply firstn_all.
Qed.

Lemma c_str_app_nul s t : nul_free s = true -> c_str (s ++ NUL :: t) = s.
Proof.
  intros H. unfold c_str. rewrite (strlen_app_nul _ _ H).
  rewrite firstn_app, firstn_all, Nat.sub_diag. simpl. apply app_nil_r.
Qed.

Lemma strlen_c_str s : strlen (c_str s) = strlen s.
Proof.
  rewrite (strlen_nul_free _ (c_str_nul_free s)).
  unfold c_str. rewrite length_firstn. pose proof (strlen_le s). lia.
Qed.

Lemma length_c_str s : length (c_str s) = strlen s.
Proof.
  rewrite <- (strlen_nul_free _ (c_str_nul_free s)). apply strlen_c_str.
Qed.

Lemma skipn_repeat {A} (x : A) k m : skipn k (repeat x m) = repeat x (m - k).
Proof.
  revert m. induction k as [|k IH]; intros m.
  - rewrite Nat.sub_0_r. reflexivity.
  - destruct m as [|m]; [reflexivity|]. cbn [repeat skipn]. apply IH.
Qed.

Lemma length_overwrite buf data : length (overwrite buf data) = length buf.
Proof.
  unfold overwrite. rewrite length_app, length_firstn, length_skipn. lia.
Qed.

Lemma overwrite_fits buf data :
  (length data <= length buf)%nat -> overwrite buf data = data ++ skipn (length data) buf.
Proof.
  intros H. unfold overwrite. rewrite firstn_all2 by lia. reflexivity.
Qed.

Lemma overwrite_exact buf data : length data = length buf -> overwrite buf data = data.
Proof.
  intros H. rewrite overwrite_fits by lia. rewrite H, skipn_all. apply app_nil_r.
Qed.

Lemma length_vector n : length (vector n) = N.to_nat n.
Proof. apply repeat_length. Qed.

(* ===================================================================== *)
(** * The codec: lengths *)
(* ===================================================================== *)

Section CodecLengths.
Import codecs.

Lemma ENCODED_LEN_ORIGINAL n :
  sodium_base64_ENCODED_LEN n sodium_base64_VARIANT_ORIGINAL
  = b64_len_of n + 1.
Proof.
  unfold sodium_base64_ENCODED_LEN, b64_len_of.
  change (N.land (uint_not _) ) with (N.land 0).
  rewrite N.land_0_l.
  assert (Hr : n - n / 3 * 3 = n mod 3) by lia.
  rewrite Hr. replace (n - 3 * (n / 3)) with (n mod 3) by lia.
  assert (H3 : n mod 3 = 0 \/ n mod 3 = 1 \/ n mod 3 = 2) by lia.
  destruct H3 as [H|[H|H]]; rewrite H; simpl; lia.
Qed.

Lemma b64_len_of_ceil n : b64_len_of n = 4 * ((n + 2) / 3).
Proof.
  unfold b64_len_of.
  destruct (N.eqb_spec (n - 3 * (n / 3)) 0); lia.
Qed.

Lemma b64_len_of_3 n : b64_len_of (3 + n) = 4 + b64_len_of n.
Proof.
  unfold b64_len_of.
  destruct (N.eqb_spec (n - 3 * (n / 3)) 0),
           (N.eqb_spec (3 + n - 3 * ((3 + n) / 3)) 0); lia.
Qed.

End CodecLengths.

(* ===================================================================== *)
(** * The codec: bit operations as arithmetic *)
(* ===================================================================== *)

Lemma land_63 x : N.land x 63 = x mod 64.
Proof. change 63 with (N.ones 6). rewrite N.land_ones. reflexivity. Qed.
Lemma land_255 x : N.land x 255 = x mod 256.
Proof. change 255 with (N.ones 8). rewrite N.land_ones. reflexivity. Qed.

Ltac bits :=
  unfold codecs.uint;
  rewrite ?land_63, ?land_255, ?N.shiftr_div_pow2, ?N.shiftl_mul_pow2.

Lemma N_of_ascii_lt b : N_of_ascii b < 256.
Proof. apply N_ascii_bounded. Qed.

(* ===================================================================== *)
(** * The encoder against the reference *)
(* ===================================================================== *)

Section Encoder.
Import codecs.

(** The inner loop runs to its end on the turns it is given: it leaves
    fewer than 6 bits. *)
Lemma emit_sextets_done fuel : forall acc acc_len b64,
  (N.to_nat acc_len <= fuel)%nat ->
  fst (emit_sextets fuel acc acc_len b64) < 6.
Proof.
  induction fuel as [|fuel IH]; intros acc acc_len b64 Hfuel; cbn [emit_sextets].
  - cbn [fst]. lia.
  - destruct (N.leb_spec 6 acc_len); [apply IH; lia | cbn [fst]; lia].
Qed.

Lemma bin2base64_step0 b bin acc b64 :
  bin2base64_loop (b :: bin) acc 0 b64
  = bin2base64_loop bin (uint (N.shiftl acc 8 + N_of_ascii b)) 2
      (b64 ++ [b64_char (N_of_ascii b / 4)]).
Proof.
  pose proof (N_of_ascii_lt b) as Hb.
  replace (N_of_ascii b / 4)
    with (N.land (N.shiftr (uint (N.shiftl acc 8 + N_of_ascii b)) 2) 63)
    by (bits; lia).
  reflexivity.
Qed.

Lemma bin2base64_step2 b bin acc b64 :
  bin2base64_loop (b :: bin) acc 2 b64
  = bin2base64_loop bin (uint (N.shiftl acc 8 + N_of_ascii b)) 4
      (b64 ++ [b64_char (acc mod 4 * 16 + N_of_ascii b / 16)]).
Proof.
  pose proof (N_of_ascii_lt b) as Hb.
  replace (acc mod 4 * 16 + N_of_ascii b / 16)
    with (N.land (N.shiftr (uint (N.shiftl acc 8 + N_of_ascii b)) 4) 63)
    by (bits; lia).
  reflexivity.
Qed.

Lemma bin2base64_step4 b bin acc b64 :
  bin2base64_loop (b :: bin) acc 4 b64
  = bin2base64_loop bin (uint (N.shiftl acc 8 + N_of_ascii b)) 0
      (b64 ++ [b64_char (acc mod 16 * 4 + N_of_ascii b / 64);
               b64_char (N_of_ascii b mod 64)]).
Proof.
  pose proof (N_of_ascii_lt b) as Hb.
  replace (acc mod 16 * 4 + N_of_ascii b / 64)
    with (N.land (N.shiftr (uint (N.shiftl acc 8 + N_of_ascii b)) 6) 63)
    by (bits; lia).
  replace (N_of_ascii b mod 64)
    with (N.land (N.shiftr (uint (N.shiftl acc 8 + N_of_ascii b)) 0) 63)
    by (bits; lia).
  change (b64 ++ [?x; ?y]) with (b64 ++ [x] ++ [y]).
  rewrite app_assoc. reflexivity.
Qed.

Lemma bin2base64_loop_rfc4648 bin : forall acc b64 n,
  (N.to_nat n = length b64 + N.to_nat (b64_len_of (N.of_nat (length bin))))%nat ->
  bin2base64_end (bin2base64_loop bin acc 0 b64) n = b64 ++ rfc4648 bin.
Proof.
  induction bin as [|b0|b0 b1|b0 b1 b2 bin IH] using list_ind3; intros acc b64 n Hn.
  - simpl in *. replace (N.to_nat n - length b64)%nat with 0%nat by lia.
    reflexivity.
  - rewrite bin2base64_step0. cbn [bin2base64_loop bin2base64_end].
    change (0 <? 2) with true. cbv iota.
    change (b64_len_of (N.of_nat (length [b0]))) with 4 in Hn.
    rewrite !length_app. simpl length.
    replace (N.to_nat n - (length b64 + 1 + 1))%nat with 2%nat by lia.
    rewrite <- !app_assoc. simpl. do 3 f_equal.
    unfold b64_char. do 2 f_equal. bits. pose proof (N_of_ascii_lt b0). lia.
  - rewrite bin2base64_step0, bin2base64_step2. cbn [bin2base64_loop bin2base64_end].
    change (0 <? 4) with true. cbv iota.
    change (b64_len_of (N.of_nat (length [b0; b1]))) with 4 in Hn.
    rewrite !length_app. simpl length.
    replace (N.to_nat n - (length b64 + 1 + 1 + 1))%nat with 1%nat by lia.
    rewrite <- !app_assoc. simpl.
    pose proof (N_of_ascii_lt b0). pose proof (N_of_ascii_lt b1).
    do 2 f_equal. f_equal; [|f_equal]; unfold b64_char; do 2 f_equal; bits; lia.
  - rewrite bin2base64_step0, bin2base64_step2, bin2base64_step4.
    rewrite IH.
    + rewrite <- !app_assoc. simpl.
      pose proof (N_of_ascii_lt b0). pose proof (N_of_ascii_lt b1).
      do 2 f_equal. f_equal; [|f_equal]; unfold b64_char; do 2 f_equal; bits; lia.
    + rewrite !length_app. simpl length.
      replace (N.of_nat (length (b0 :: b1 :: b2 :: bin))) with (3 + N.of_nat (length bin)) in Hn
        by (simpl length; lia).
      rewrite b64_len_of_3 in Hn. lia.
Qed.

Theorem base64_text_rfc4648 bin : base64_text bin = rfc4648 bin.
Proof.
  unfold base64_text. rewrite bin2base64_loop_rfc4648; [reflexivity|]. simpl. lia.
Qed.

End Encoder.

(* ===================================================================== *)
(** * The decoder on the reference text *)
(* ===================================================================== *)

Section Decoder.
Import codecs.

Lemma b64_byte_to_char_lt x : b64_byte_to_char x < 256.
Proof.
  unfold b64_byte_to_char.
  repeat match goal with
         | |- context [?a <? ?b] => destruct (N.ltb_spec a b)
         | |- context [?a =? ?b] => destruct (N.eqb_spec a b)
         end; lia.
Qed.

Lemma N_lt_64_In x : x < 64 -> In x (map N.of_nat (seq 0 64)).
Proof.
  intros Hx. apply in_map_iff. exists (N.to_nat x). split; [lia|].
  apply in_seq. lia.
Qed.

Lemma b64_char_to_byte_char x :
  x < 64 -> b64_char_to_byte (N_of_ascii (b64_char x)) = x.
Proof.
  intros Hx. apply N.eqb_eq.
  assert (H : forallb (fun x => b64_char_to_byte (N_of_ascii (b64_char x)) =? x)
                (map N.of_nat (seq 0 64)) = true) by (vm_compute; reflexivity).
  rewrite forallb_forall in H. apply H, N_lt_64_In, Hx.
Qed.

Lemma base642bin_step0 maxlen c b64 acc bin d :
  b64_char_to_byte (N_of_ascii c) = d -> d < 64 ->
  base642bin_loop maxlen (c :: b64) acc 0 bin
  = base642bin_loop maxlen b64 (uint (N.shiftl acc 6 + d)) 6 bin.
Proof.
  intros Hd Hlt. cbn [base642bin_loop]. rewrite Hd.
  destruct (N.eqb_spec d 255); [lia|]. reflexivity.
Qed.

Lemma uint_shiftl6_mod acc d m :
  m = 64 \/ m = 16 \/ m = 4 ->
  uint (N.shiftl acc 6 + d) mod m = d mod m.
Proof. intros [->|[->| ->]]; bits; lia. Qed.

Lemma base642bin_step6 maxlen c b64 acc bin d :
  b64_char_to_byte (N_of_ascii c) = d -> d < 64 ->
  N.of_nat (length bin) < maxlen ->
  base642bin_loop maxlen (c :: b64) acc 6 bin
  = base642bin_loop maxlen b64 (uint (N.shiftl acc 6 + d)) 4
      (bin ++ [ascii_of_N ((acc mod 64 * 64 + d) / 16)]).
Proof.
  intros Hd Hlt Hmax. cbn [base642bin_loop]. rewrite Hd.
  destruct (N.eqb_spec d 255); [lia|].
  change (8 <=? 6 + 6) with true. cbv iota.
  destruct (N.leb_spec maxlen (N.of_nat (length bin))); [lia|].
  change (6 + 6 - 8) with 4.
  replace ((acc mod 64 * 64 + d) / 16)
    with (N.land (N.shiftr (uint (N.shiftl acc 6 + d)) 4) 255) by (bits; lia).
  reflexivity.
Qed.

Lemma base642bin_step4 maxlen c b64 acc bin d :
  b64_char_to_byte (N_of_ascii c) = d -> d < 64 ->
  N.of_nat (length bin) < maxlen ->
  base642bin_loop maxlen (c :: b64) acc 4 bin
  = base642bin_loop maxlen b64 (uint (N.shiftl acc 6 + d)) 2
      (bin ++ [ascii_of_N ((acc mod 16 * 64 + d) / 4)]).
Proof.
  intros Hd Hlt Hmax. cbn [base642bin_loop]. rewrite Hd.
  destruct (N.eqb_spec d 255); [lia|].
  change (8 <=? 4 + 6) with true. cbv iota.
  destruct (N.leb_spec maxlen (N.of_nat (length bin))); [lia|].
  change (4 + 6 - 8) with 2.
  replace ((acc mod 16 * 64 + d) / 4)
    with (N.land (N.shiftr (uint (N.shiftl acc 6 + d)) 2) 255) by (bits; lia).
  reflexivity.
Qed.

Lemma base642bin_step2 maxlen c b64 acc bin d :
  b64_char_to_byte (N_of_ascii c) = d -> d < 64 ->
  N.of_nat (length bin) < maxlen ->
  base642bin_loop maxlen (c :: b64) acc 2 bin
  = base642bin_loop maxlen b64 (uint (N.shiftl acc 6 + d)) 0
      (bin ++ [ascii_of_N (acc mod 4 * 64 + d)]).
Proof.
  intros Hd Hlt Hmax. cbn [base642bin_loop]. rewrite Hd.
  destruct (N.eqb_spec d 255); [lia|].
  change (8 <=? 2 + 6) with true. cbv iota.
  destruct (N.leb_spec maxlen (N.of_nat (length bin))); [lia|].
  change (2 + 6 - 8) with 0.
  replace (acc mod 4 * 64 + d)
    with (N.land (N.shiftr (uint (N.shiftl acc 6 + d)) 0) 255) by (bits; lia).
  reflexivity.
Qed.

Lemma base642bin_stop maxlen c b64 acc acc_len bin :
  b64_char_to_byte (N_of_ascii c) = 255 ->
  base642bin_loop maxlen (c :: b64) acc acc_len bin = (0%Z, c :: b64, acc, acc_len, bin).
Proof. intros Hd. cbn [base642bin_loop]. rewrite Hd. reflexivity. Qed.

(** One decoding step on a character of the alphabet, whatever the state. *)
Ltac dec_step :=
  first [ erewrite base642bin_step0 | erewrite base642bin_step6
        | erewrite base642bin_step4 | erewrite base642bin_step2 ];
  [| apply b64_char_to_byte_char; lia | lia | try (rewrite ?length_app; simpl in *; lia) ..];
  rewrite ?uint_shiftl6_mod by auto.

Lemma low_bits_0 acc d k :
  d < 64 -> (k = 4 /\ d mod 16 = 0) \/ (k = 2 /\ d mod 4 = 0) ->
  N.land (uint (N.shiftl acc 6 + d)) (N.shiftl 1 k - 1) = 0.
Proof.
  intros Hd [[-> H]|[-> H]].
  - change (N.shiftl 1 4 - 1) with (N.ones 4). rewrite N.land_ones. bits. lia.
  - change (N.shiftl 1 2 - 1) with (N.ones 2). rewrite N.land_ones. bits. lia.
Qed.

Lemma base642bin_loop_rfc4648 maxlen bin : forall acc out,
  N.of_nat (length out + length bin) <= maxlen ->
  base642bin_end (base642bin_loop maxlen (rfc4648 bin) acc 0 out)
  = (0%Z, out ++ bin, N.of_nat (length (out ++ bin))).
Proof.
  induction bin as [|b0|b0 b1|b0 b1 b2 bin IH] using list_ind3; intros acc out Hmax.
  - rewrite app_nil_r. cbn [rfc4648 base642bin_loop]. unfold base642bin_end.
    change (N.shiftl 1 0 - 1) with 0. rewrite N.land_0_r. reflexivity.
  - pose proof (N_of_ascii_lt b0) as H0.
    cbn [rfc4648]. do 2 dec_step.
    rewrite base642bin_stop by reflexivity.
    match goal with |- context [ascii_of_N ?x] =>
      replace x with (N_of_ascii b0) by lia end.
    rewrite ascii_N_embedding. unfold base642bin_end.
    rewrite low_bits_0 by first [lia | left; split; [reflexivity|lia]].
    reflexivity.
  - pose proof (N_of_ascii_lt b0) as H0. pose proof (N_of_ascii_lt b1) as H1.
    cbn [rfc4648]. do 3 dec_step.
    rewrite base642bin_stop by reflexivity.
    match goal with |- context [(out ++ [ascii_of_N ?x]) ++ [ascii_of_N ?y]] =>
      replace x with (N_of_ascii b0) by lia;
      replace y with (N_of_ascii b1) by lia end.
    rewrite !ascii_N_embedding. unfold base642bin_end.
    rewrite low_bits_0 by first [lia | right; split; [reflexivity|lia]].
    rewrite <- app_assoc. reflexivity.
  - pose proof (N_of_ascii_lt b0) as H0. pose proof (N_of_ascii_lt b1) as H1.
    pose proof (N_of_ascii_lt b2) as H2.
    cbn [rfc4648]. do 4 dec_step.
    match goal with
    | |- context [((out ++ [ascii_of_N ?x]) ++ [ascii_of_N ?y]) ++ [ascii_of_N ?z]] =>
      replace x with (N_of_ascii b0) by lia;
      replace y with (N_of_ascii b1) by lia;
      replace z with (N_of_ascii b2) by lia end.
    rewrite !ascii_N_embedding.
    rewrite IH by (rewrite ?length_app; simpl in *; lia).
    rewrite <- !app_assoc. reflexivity.
Qed.

Theorem sodium_base642bin_rfc4648 maxlen bin :
  N.of_nat (length bin) <= maxlen ->
  sodium_base642bin maxlen (rfc4648 bin) = (0%Z, bin, N.of_nat (length bin)).
Proof.
  intros H. unfold sodium_base642bin.
  rewrite base642bin_loop_rfc4648 by (simpl; lia). reflexivity.
Qed.

(** ** The texts the decoder accepts *)

Lemma N_lt_256_In x : x < 256 -> In x (map N.of_nat (seq 0 256)).
Proof.
  intros Hx. apply in_map_iff. exists (N.to_nat x). split; [lia|].
  apply in_seq. lia.
Qed.

(** A character is outside the alphabet, or it is the character of its
    6-bit value. *)
Lemma alphabet_cases c :
  b64_char_to_byte (N_of_ascii c) = 255
  \/ (b64_char_to_byte (N_of_ascii c) < 64
      /\ b64_char (b64_char_to_byte (N_of_ascii c)) = c).
Proof.
  assert (H : forallb (fun n =>
                let c := ascii_of_N n in
                let d := b64_char_to_byte (N_of_ascii c) in
                (d =? 255) || ((d <? 64) && (b64_char d =? c)%char))
                (map N.of_nat (seq 0 256)) = true) by (vm_compute; reflexivity).
  rewrite forallb_forall in H.
  specialize (H _ (N_lt_256_In _ (N_of_ascii_lt c))). cbv zeta in H.
  rewrite ascii_N_embedding in H.
  apply orb_true_iff in H as [H|H].
  - left. apply N.eqb_eq, H.
  - right. apply andb_true_iff in H as [H1 H2].
    split; [apply N.ltb_lt, H1 | apply Ascii.eqb_eq, H2].
Qed.

Lemma base642bin_end_error rest acc acc_len bin :
  base642bin_end ((-1)%Z, rest, acc, acc_len, bin) = ((-1)%Z, bin, 0).
Proof.
  unfold base642bin_end.
  destruct ((4 <? acc_len) || _); reflexivity.
Qed.

Lemma base642bin_end_6 ret rest acc bin :
  base642bin_end (ret, rest, acc, 6, bin) = ((-1)%Z, bin, 0).
Proof. reflexivity. Qed.

Lemma skip_padding_ok b64 n rest :
  skip_padding b64 n = (0%Z, rest) -> b64 = repeat "="%char n ++ rest.
Proof.
  revert b64. induction n as [|n IH]; intros b64 H; simpl in *.
  - injection H as ->. reflexivity.
  - destruct b64 as [|c b64]; [discriminate|].
    destruct (Ascii.eqb_spec c "="%char); [|discriminate].
    subst c. f_equal. apply IH, H.
Qed.

(** The end of a run that returns 0, by the number of bits left over. *)
Lemma base642bin_end_ok rest acc acc_len bin bin' n :
  acc_len = 0 \/ acc_len = 2 \/ acc_len = 4 ->
  base642bin_end (0%Z, rest, acc, acc_len, bin) = (0%Z, bin', n) ->
  acc mod 2 ^ acc_len = 0
  /\ rest = repeat "="%char (N.to_nat (acc_len / 2))
  /\ bin' = bin /\ n = N.of_nat (length bin).
Proof.
  intros Hal H. unfold base642bin_end in H.
  assert (Hlow : N.land acc (N.shiftl 1 acc_len - 1) = acc mod 2 ^ acc_len).
  { rewrite N.shiftl_1_l, <- N.pred_sub, <- N.ones_equiv. apply N.land_ones. }
  rewrite Hlow in H.
  destruct (N.ltb_spec 4 acc_len); [lia|].
  destruct (N.eqb_spec (acc mod 2 ^ acc_len) 0) as [Hz|]; cbn [orb negb] in H;
    [|discriminate H].
  change (0 =? 0)%Z with true in H. cbv iota in H.
  destruct (skip_padding rest (N.to_nat (acc_len / 2))) as [ret rest'] eqn:Hskip.
  destruct (Z.eqb_spec ret 0) as [->|]; cbn [negb] in H; [|congruence].
  apply skip_padding_ok in Hskip.
  destruct rest' as [|x rest']; [|discriminate H].
  injection H as <- <-. rewrite app_nil_r in Hskip. auto.
Qed.

(** One character of the alphabet in a state that stores a byte. *)
Lemma base642bin_step_store maxlen c b64 acc acc_len bin :
  b64_char_to_byte (N_of_ascii c) < 64 ->
  acc_len = 6 \/ acc_len = 4 \/ acc_len = 2 ->
  base642bin_loop maxlen (c :: b64) acc acc_len bin
  = let d := b64_char_to_byte (N_of_ascii c) in
    if maxlen <=? N.of_nat (length bin)
    then ((-1)%Z, c :: b64, uint (N.shiftl acc 6 + d), acc_len - 2, bin)
    else base642bin_loop maxlen b64 (uint (N.shiftl acc 6 + d)) (acc_len - 2)
           (bin ++ [ascii_of_N ((acc mod 2 ^ acc_len * 64 + d) / 2 ^ (acc_len - 2))]).
Proof.
  intros Hd Hal. cbn [base642bin_loop]. cbv zeta.
  destruct (N.eqb_spec (b64_char_to_byte (N_of_ascii c)) 255); [lia|].
  destruct (N.leb_spec 8 (acc_len + 6)); [|lia].
  replace (acc_len + 6 - 8) with (acc_len - 2) by lia.
  destruct (maxlen <=? N.of_nat (length bin)); [reflexivity|].
  do 4 f_equal.
  destruct Hal as [->|[->| ->]]; bits; simpl N.sub; lia.
Qed.


Lemma base642bin_loop_nil maxlen acc acc_len bin :
  base642bin_loop maxlen [] acc acc_len bin = (0%Z, [], acc, acc_len, bin).
Proof. reflexivity. Qed.

(** In [H], one step of the loop on the next character: the run stops on a
    character outside the alphabet, or goes on, storing a byte where the
    state asks for one (a full [bin] ends the run with an error). *)
Ltac dec_case c Hlt Hch :=
  let Hstop := fresh "Hstop" in
  destruct (alphabet_cases c) as [Hstop|[Hlt Hch]];
  [ rewrite (base642bin_stop _ _ _ _ _ _ Hstop) in *
  | first
      [ rewrite (base642bin_step0 _ _ _ _ _ _ eq_refl Hlt) in *
      | rewrite (base642bin_step_store _ _ _ _ _ _ Hlt) in * by auto;
        cbv zeta in *;
        match goal with
        | H : context [?m <=? ?k] |- _ =>
            destruct (N.leb_spec m k);
            [rewrite base642bin_end_error in H; discriminate H|]
        end ] ].

Ltac dec_end H :=
  first
    [ rewrite base642bin_end_6 in H; discriminate H
    | apply base642bin_end_ok in H; [|auto];
      destruct H as (Hlow & Hrest & -> & ->);
      try discriminate Hrest ].

Lemma base642bin_loop_sound maxlen b64 : forall acc out bin n,
  N.of_nat (length out) <= maxlen ->
  base642bin_end (base642bin_loop maxlen b64 acc 0 out) = (0%Z, bin, n) ->
  exists tail,
    bin = out ++ tail /\ b64 = rfc4648 tail
    /\ N.of_nat (length bin) <= maxlen /\ n = N.of_nat (length bin).
Proof.
  induction b64 as [|a|a b|a b c|a b c d l IH] using list_ind4;
    intros acc out bin n Hout H.
  - rewrite base642bin_loop_nil in H. dec_end H.
    exists []. rewrite app_nil_r. auto.
  - dec_case a Ha Ca; [dec_end H|].
    rewrite base642bin_loop_nil in H. dec_end H.
  - dec_case a Ha Ca; [dec_end H|].
    dec_case b Hb Cb; [dec_end H|].
    rewrite base642bin_loop_nil in H. dec_end H.
  - dec_case a Ha Ca; [dec_end H|].
    dec_case b Hb Cb; [dec_end H|].
    dec_case c Hc Cc; [dec_end H|].
    rewrite base642bin_loop_nil in H. dec_end H.
  - dec_case a Ha Ca; [dec_end H|].
    dec_case b Hb Cb; [dec_end H|].
    change (2 ^ 6) with 64 in *. change (2 ^ (6 - 2)) with 16 in *.
    change (6 - 2) with 4 in *.
    rewrite uint_shiftl6_mod in * by auto.
    set (d0 := b64_char_to_byte (N_of_ascii a)) in *.
    set (d1 := b64_char_to_byte (N_of_ascii b)) in *.
    dec_case c Hc Cc.
    { dec_end H. change (2 ^ 4) with 16 in Hlow.
      rewrite uint_shiftl6_mod in Hlow by auto.
      injection Hrest as -> -> ->.
      eexists [_]. split; [reflexivity|]. split.
      - cbn [rfc4648]. rewrite !N_ascii_embedding by lia.
        rewrite <- Ca at 1. rewrite <- Cb at 1. fold d0 d1.
        repeat f_equal; lia.
      - rewrite length_app in *. simpl length in *. split; [lia|reflexivity]. }
    change (2 ^ 4) with 16 in *. change (2 ^ (4 - 2)) with 4 in *.
    change (4 - 2) with 2 in *.
    rewrite uint_shiftl6_mod in * by auto.
    set (d2 := b64_char_to_byte (N_of_ascii c)) in *.
    dec_case d Hd Cd.
    { dec_end H. change (2 ^ 2) with 4 in Hlow.
      rewrite uint_shiftl6_mod in Hlow by auto.
      injection Hrest as -> ->.
      eexists [_; _]. split; [rewrite <- app_assoc; reflexivity|]. split.
      - cbn [rfc4648]. rewrite !N_ascii_embedding by lia.
        rewrite <- Ca at 1. rewrite <- Cb at 1. rewrite <- Cc at 1. fold d0 d1 d2.
        repeat f_equal; lia.
      - rewrite !length_app in *. simpl length in *. split; [lia|reflexivity]. }
    change (2 ^ 2) with 4 in *. change (2 ^ (2 - 2)) with 1 in *.
    change (2 - 2) with 0 in *.
    rewrite uint_shiftl6_mod in * by auto.
    set (d3 := b64_char_to_byte (N_of_ascii d)) in *.
    apply IH in H; [|rewrite !length_app in *; simpl length in *; lia].
    destruct H as (tail & -> & -> & Hlen & ->).
    rewrite <- !app_assoc in *. cbn [app] in *.
    eexists (_ :: _ :: _ :: tail).
    split; [reflexivity|]. split; [|split; [exact Hlen|reflexivity]].
    cbn [rfc4648]. rewrite !N_ascii_embedding by lia.
    rewrite <- Ca at 1. rewrite <- Cb at 1. rewrite <- Cc at 1.
    rewrite <- Cd at 1. fold d0 d1 d2 d3.
    repeat f_equal; lia.
Qed.

(** The decoder returns 0 exactly on the RFC 4648 text of at most
    [bin_maxlen] bytes, and then stores those bytes. *)
Theorem sodium_base642bin_accepts maxlen b64 bin n :
  sodium_base642bin maxlen b64 = (0%Z, bin, n)
  <-> b64 = rfc4648 bin /\ N.of_nat (length bin) <= maxlen
      /\ n = N.of_nat (length bin).
Proof.
  split.
  - intros H. apply base642bin_loop_sound in H; [|simpl; lia].
    destruct H as (tail & -> & -> & Hlen & ->). auto.
  - intros (-> & Hlen & ->). apply sodium_base642bin_rfc4648, Hlen.
Qed.

(** Two byte strings with the same text are equal. *)
Lemma rfc4648_inj bin bin' : rfc4648 bin = rfc4648 bin' -> bin = bin'.
Proof.
  intros H.
  pose proof (sodium_base642bin_rfc4648 (N.of_nat (length bin + length bin')) bin
                ltac:(lia)) as H1.
  pose proof (sodium_base642bin_rfc4648 (N.of_nat (length bin + length bin')) bin'
                ltac:(lia)) as H2.
  rewrite H, H2 in H1. congruence.
Qed.

(** Every character of a text is in the alphabet or is the padding. *)
Lemma rfc4648_chars bin c :
  In c (rfc4648 bin) ->
  b64_char_to_byte (N_of_ascii c) < 64 \/ c = "="%char.
Proof.
  induction bin as [|b0|b0 b1|b0 b1 b2 bin IH] using list_ind3;
    cbn [rfc4648 In]; intros H;
    try pose proof (N_of_ascii_lt b0);
    try pose proof (N_of_ascii_lt b1);
    try pose proof (N_of_ascii_lt b2);
    repeat match goal with
           | H : _ \/ _ |- _ => destruct H as [H|H]
           | H : False |- _ => destruct H
           | H : b64_char ?x = c |- _ =>
               left; rewrite <- H, b64_char_to_byte_char by lia; lia
           | H : "="%char = c |- _ => right; symmetry; exact H
           end.
  apply IH, H.
Qed.

End Decoder.

(* ===================================================================== *)
(** * The operation, stage by stage *)
(* ===================================================================== *)

Section Run.

Context {L : Sodium}.

Lemma vector_key_len : N.of_nat (length (vector crypto_box_PUBLICKEYBYTES)) = crypto_box_PUBLICKEYBYTES.
Proof. reflexivity. Qed.

(** [encrypt_secret] on four pointers that are not null, by the outcome of
    its stages. *)
Lemma encrypt_secret_run rnd key pt out cap :
  encrypt_secret rnd (Some key) (Some pt) (Some out) (Some cap) =
  if negb (key_decodes key) then
    Some (Returned (-2) (Some out) (Some cap) [decode_call key])
  else if negb (seals rnd key pt) then
    Some (Returned (-3) (Some out) (Some cap) [decode_call key; seal_call key pt])
  else if cap <? required_len pt then
    Some (Returned (-4) (Some out) (Some (required_len pt))
            [decode_call key; seal_call key pt])
  else
    match sodium_bin2base64 cap (ciphertext_bytes rnd key pt) with
    | None => None
    | Some (b64_output, stored) =>
        let out' := overwrite out stored in
        let log := [decode_call key; seal_call key pt; encode_call rnd key pt cap] in
        if negb b64_output then Some (Returned (-5) (Some out') (Some cap) log)
        else Some (Returned 0 (Some out') (Some (N.of_nat (strlen out'))) log)
    end.
Proof.
  unfold encrypt_secret, decode_call, seal_call, encode_call, key_decodes, seals,
    required_len, ciphertext_bytes, ciphertext_len, key_bytes.
  rewrite vector_key_len. fold (c_str key). fold (c_str pt).
  destruct (sodium_base642bin crypto_box_PUBLICKEYBYTES (c_str key)) as [[ret stored] n].
  cbn [fst snd].
  destruct (negb (ret =? 0)%Z); [reflexivity|].
  destruct (crypto_box_seal rnd (c_str pt) _) as [ret' stored'].
  cbn [fst snd].
  destruct (negb (ret' =? 0)%Z); [reflexivity|].
  destruct (cap <? _); [reflexivity|].
  destruct (sodium_bin2base64 cap _) as [[p st]|]; reflexivity.
Qed.

End Run.

(* ===================================================================== *)
(** * Properties that hold for any library behind the interface *)
(* ===================================================================== *)

Section AnyLibrary.

Context {L : Sodium}.

(** The call reads the plaintext only through [strlen]. *)
Lemma encrypt_secret_plaintext_ext rnd k p1 p2 o n :
  strlen p1 = strlen p2 -> c_str p1 = c_str p2 ->
  encrypt_secret rnd k (Some p1) o n = encrypt_secret rnd k (Some p2) o n.
Proof.
  intros Hlen Hstr. destruct k as [key|], o as [out|], n as [cap|]; try reflexivity.
  unfold encrypt_secret. fold (c_str p1). fold (c_str p2).
  rewrite Hlen, Hstr. reflexivity.
Qed.

(** C4, for null pointers: a null key, plaintext, output or capacity
    pointer makes the call return InvalidArgument (-1) before any library
    function is called, with the output buffer and the capacity as they
    were. *)
Theorem C4_null_argument rnd k p o n :
  k = None \/ p = None \/ o = None \/ n = None ->
  encrypt_secret rnd k p o n = Some (Returned InvalidArgument o n []).
Proof.
  intros H. destruct k, p, o, n; try reflexivity.
  destruct H as [H|[H|[H|H]]]; discriminate H.
Qed.

(** A call that returns, by the stage at which it stopped. *)
Lemma stage_cases rnd k p o n r :
  encrypt_secret rnd k p o n = Some r ->
  (((k = None \/ p = None \/ o = None \/ n = None)
       /\ status r = InvalidArgument /\ calls r = [])
      \/ exists key pt out cap,
           k = Some key /\ p = Some pt /\ o = Some out /\ n = Some cap
           /\ ((key_decodes key = false
                /\ status r = InvalidKeyEncoding
                /\ calls r = [decode_call key])
               \/ (key_decodes key = true /\ seals rnd key pt = false
                   /\ status r = SealingFailed
                   /\ calls r = [decode_call key; seal_call key pt])
               \/ (key_decodes key = true /\ seals rnd key pt = true
                   /\ cap < required_len pt
                   /\ status r = BufferTooSmall
                   /\ calls r = [decode_call key; seal_call key pt])
               \/ (key_decodes key = true /\ seals rnd key pt = true
                   /\ required_len pt <= cap
                   /\ (exists stored,
                          sodium_bin2base64 cap (ciphertext_bytes rnd key pt)
                          = Some (false, stored))
                   /\ status r = EncodingFailed
                   /\ calls r = [decode_call key; seal_call key pt;
                                 encode_call rnd key pt cap])
               \/ (key_decodes key = true /\ seals rnd key pt = true
                   /\ required_len pt <= cap
                   /\ (exists stored,
                          sodium_bin2base64 cap (ciphertext_bytes rnd key pt)
                          = Some (true, stored))
                   /\ status r = Success
                   /\ calls r = [decode_call key; seal_call key pt;
                                 encode_call rnd key pt cap]))).
Proof.
  intros Hr.
  destruct k as [key|]; [|left; inversion Hr; subst; simpl; auto].
  destruct p as [pt|]; [|left; inversion Hr; subst; simpl; auto].
  destruct o as [out|]; [|left; inversion Hr; subst; simpl; auto 6].
  destruct n as [cap|]; [|left; inversion Hr; subst; simpl; auto 6].
  right. exists key, pt, out, cap. repeat split; try reflexivity.
  rewrite encrypt_secret_run in Hr.
  destruct (key_decodes key); cbn [negb] in Hr;
    [|inversion Hr; subst; left; auto].
  destruct (seals rnd key pt); cbn [negb] in Hr;
    [|inversion Hr; subst; right; left; auto].
  destruct (N.ltb_spec cap (required_len pt)) as [Hlt|Hge];
    [inversion Hr; subst; right; right; left; auto|].
  destruct (sodium_bin2base64 cap _) as [[[|] stored]|] eqn:Henc;
    [| |discriminate]; cbn [negb] in Hr; inversion Hr; subst; cbn [status calls].
  - right; right; right; right. repeat split; eauto.
  - right; right; right; left. repeat split; eauto.
Qed.

(** C7: the stages run in the order argument check, decode, seal, encode.
    A call that returns stopped at the first stage that failed: the library
    calls it made are those of the stages up to that one and no later one,
    and its status is that stage's code, -1 for a null argument, -2 for the
    decoder, -3 for the primitive, -4 for a capacity below the required
    size, -5 for a null pointer from the encoder, 0 when no stage failed.
    The six codes are pairwise distinct. *)
Theorem C7_stage_order rnd k p o n r :
  encrypt_secret rnd k p o n = Some r ->
  NoDup [InvalidArgument; InvalidKeyEncoding; SealingFailed;
         BufferTooSmall; EncodingFailed; Success]
  /\ (((k = None \/ p = None \/ o = None \/ n = None)
       /\ status r = InvalidArgument /\ calls r = [])
      \/ exists key pt out cap,
           k = Some key /\ p = Some pt /\ o = Some out /\ n = Some cap
           /\ ((key_decodes key = false
                /\ status r = InvalidKeyEncoding
                /\ calls r = [decode_call key])
               \/ (key_decodes key = true /\ seals rnd key pt = false
                   /\ status r = SealingFailed
                   /\ calls r = [decode_call key; seal_call key pt])
               \/ (key_decodes key = true /\ seals rnd key pt = true
                   /\ cap < required_len pt
                   /\ status r = BufferTooSmall
                   /\ calls r = [decode_call key; seal_call key pt])
               \/ (key_decodes key = true /\ seals rnd key pt = true
                   /\ required_len pt <= cap
                   /\ (exists stored,
                          sodium_bin2base64 cap (ciphertext_bytes rnd key pt)
                          = Some (false, stored))
                   /\ status r = EncodingFailed
                   /\ calls r = [decode_call key; seal_call key pt;
                                 encode_call rnd key pt cap])
               \/ (key_decodes key = true /\ seals rnd key pt = true
                   /\ required_len pt <= cap
                   /\ (exists stored,
                          sodium_bin2base64 cap (ciphertext_bytes rnd key pt)
                          = Some (true, stored))
                   /\ status r = Success
                   /\ calls r = [decode_call key; seal_call key pt;
                                 encode_call rnd key pt cap]))).
Proof.
  intros Hr. split.
  - repeat constructor; simpl; unfold InvalidArgument, InvalidKeyEncoding,
      SealingFailed, BufferTooSmall, EncodingFailed, Success; lia.
  - apply stage_cases, Hr.
Qed.

(** C9: the plaintext is read as a NUL-terminated string.  When the memory
    at [plaintext] holds a zero byte, the call is the call on the bytes
    before the first zero byte: what follows never reaches the output, and
    the message handed to the sealing primitive is that prefix. *)
Theorem C9_nul_terminated rnd k pre post o n :
  nul_free pre = true ->
  encrypt_secret rnd k (Some (pre ++ NUL :: post)) o n
  = encrypt_secret rnd k (Some pre) o n
  /\ forall r m pk,
       encrypt_secret rnd k (Some (pre ++ NUL :: post)) o n = Some r ->
       In (Call_box_seal m pk) (calls r) -> m = pre.
Proof.
  intros Hpre.
  assert (Hstr : c_str (pre ++ NUL :: post) = pre) by (apply c_str_app_nul, Hpre).
  split.
  - apply encrypt_secret_plaintext_ext.
    + rewrite strlen_app_nul, strlen_nul_free by exact Hpre. reflexivity.
    + rewrite Hstr, c_str_of_nul_free by exact Hpre. reflexivity.
  - intros r m pk Hr Hin.
    destruct (stage_cases _ _ _ _ _ _ Hr) as [[_ [_ Hc]]|Hrun].
    { rewrite Hc in Hin. destruct Hin. }
    destruct Hrun as (key & pt & out & cap & -> & Hp & -> & -> & Hcase).
    injection Hp as <-.
    assert (Hcalls : forall c, In c (calls r) ->
              c = decode_call key \/ c = seal_call key (pre ++ NUL :: post)
              \/ exists x, c = encode_call rnd key (pre ++ NUL :: post) x).
    { intros c Hc.
      destruct Hcase as [(_ & _ & E)|[(_ & _ & _ & E)|[(_ & _ & _ & _ & E)
                        |[(_ & _ & _ & _ & _ & E)|(_ & _ & _ & _ & _ & E)]]]];
        rewrite E in Hc; simpl in Hc; intuition eauto. }
    destruct (Hcalls _ Hin) as [Hc|[Hc|[x Hc]]]; try discriminate.
    unfold seal_call in Hc. injection Hc as -> _. exact Hstr.
Qed.

End AnyLibrary.

(* ===================================================================== *)
(** * The text the encoder stores *)
(* ===================================================================== *)

Section EncodedText.
Import codecs.

Lemma b64_char_not_nul x : x < 64 -> (b64_char x =? NUL)%char = false.
Proof.
  intros Hx.
  assert (H : forallb (fun x => negb (b64_char x =? NUL)%char)
                (map N.of_nat (seq 0 64)) = true) by (vm_compute; reflexivity).
  rewrite forallb_forall in H. apply negb_true_iff, H, N_lt_64_In, Hx.
Qed.

Lemma rfc4648_nul_free bin : nul_free (rfc4648 bin) = true.
Proof.
  induction bin as [|b0|b0 b1|b0 b1 b2 bin IH] using list_ind3.
  - reflexivity.
  - pose proof (N_of_ascii_lt b0). cbn [rfc4648 nul_free forallb].
    rewrite !b64_char_not_nul by lia. reflexivity.
  - pose proof (N_of_ascii_lt b0). pose proof (N_of_ascii_lt b1).
    cbn [rfc4648 nul_free forallb].
    rewrite !b64_char_not_nul by lia. reflexivity.
  - pose proof (N_of_ascii_lt b0). pose proof (N_of_ascii_lt b1).
    pose proof (N_of_ascii_lt b2).
    cbn [rfc4648 nul_free forallb].
    rewrite !b64_char_not_nul by lia. exact IH.
Qed.

Lemma rfc4648_length bin :
  N.of_nat (length (rfc4648 bin)) = b64_len_of (N.of_nat (length bin)).
Proof.
  induction bin as [|b0|b0 b1|b0 b1 b2 bin IH] using list_ind3;
    try reflexivity.
  cbn [rfc4648 length].
  replace (N.of_nat (S (S (S (length bin))))) with (3 + N.of_nat (length bin)) by lia.
  rewrite b64_len_of_3. lia.
Qed.

Lemma base64_text_length bin :
  N.of_nat (length (base64_text bin)) = b64_len_of (N.of_nat (length bin)).
Proof. rewrite base64_text_rfc4648. apply rfc4648_length. Qed.

Lemma base64_text_nul_free bin : nul_free (base64_text bin) = true.
Proof. rewrite base64_text_rfc4648. apply rfc4648_nul_free. Qed.

(** With room for the text and its terminator the encoder returns: it
    stores [b64_maxlen] characters and hands back a pointer that is not
    null. *)
Lemma sodium_bin2base64_stores b64_maxlen bin :
  b64_len_of (N.of_nat (length bin)) < b64_maxlen ->
  sodium_bin2base64 b64_maxlen bin
  = Some (true, base64_text bin
                ++ repeat NUL (N.to_nat b64_maxlen - length (base64_text bin))).
Proof.
  intros H. unfold sodium_bin2base64.
  destruct (N.leb_spec b64_maxlen (b64_len_of (N.of_nat (length bin)))); [lia|].
  reflexivity.
Qed.

Lemma sodium_bin2base64_not_null b64_maxlen bin stored :
  sodium_bin2base64 b64_maxlen bin <> Some (false, stored).
Proof.
  unfold sodium_bin2base64.
  destruct (b64_maxlen <=? _); discriminate.
Qed.

End EncodedText.

(** A text and its terminator stored at the start of a buffer. *)
Lemma strlen_overwrite_text out text k :
  nul_free text = true -> (0 < k)%nat ->
  (strlen (overwrite out (text ++ repeat NUL k)) <= length text)%nat.
Proof.
  intros Hnf Hk. unfold overwrite.
  destruct (Nat.le_gt_cases (length out) (length text)) as [Hle|Hgt].
  - rewrite skipn_all2 by (rewrite length_app; lia).
    rewrite app_nil_r, firstn_app.
    replace (length out - length text)%nat with 0%nat by lia.
    rewrite firstn_O, app_nil_r.
    pose proof (strlen_le (firstn (length out) text)) as H.
    rewrite length_firstn in H. lia.
  - rewrite firstn_app, firstn_all2 by lia.
    destruct k as [|k]; [lia|].
    destruct (length out - length text)%nat as [|j] eqn:E; [lia|].
    cbn [repeat firstn]. rewrite <- app_assoc. cbn [app].
    rewrite strlen_app_nul by exact Hnf. lia.
Qed.

Lemma c_str_overwrite_text out text k :
  nul_free text = true -> (0 < k)%nat -> (length text + k <= length out)%nat ->
  c_str (overwrite out (text ++ repeat NUL k)) = text.
Proof.
  intros Hnf Hk Hfit.
  rewrite overwrite_fits by (rewrite length_app, repeat_length; lia).
  destruct k as [|k]; [lia|].
  cbn [repeat]. rewrite <- app_assoc. cbn [app].
  apply c_str_app_nul, Hnf.
Qed.

(* ===================================================================== *)
(** * The operation over libsodium *)
(* ===================================================================== *)

Section OverLibsodium.

Variable E : Type.
Variable seal : E -> list ascii -> list ascii -> Z * list ascii.

#[local] Hint Extern 0 Sodium => exact (libsodium E seal) : typeclass_instances.

Lemma length_ciphertext_bytes rnd key pt :
  N.of_nat (length (ciphertext_bytes rnd key pt)) = ciphertext_len pt.
Proof.
  unfold ciphertext_bytes. rewrite length_overwrite, length_vector. lia.
Qed.

Lemma required_len_text pt :
  required_len pt = codecs.b64_len_of (ciphertext_len pt) + 1.
Proof. apply ENCODED_LEN_ORIGINAL. Qed.

(** Over libsodium the encoder never fails once the capacity check has
    passed, so the call always returns and never with -5. *)
Lemma encrypt_secret_libsodium rnd key pt out cap :
  encrypt_secret rnd (Some key) (Some pt) (Some out) (Some cap) =
  if negb (key_decodes key) then
    Some (Returned (-2) (Some out) (Some cap) [decode_call key])
  else if negb (seals rnd key pt) then
    Some (Returned (-3) (Some out) (Some cap) [decode_call key; seal_call key pt])
  else if cap <? required_len pt then
    Some (Returned (-4) (Some out) (Some (required_len pt))
            [decode_call key; seal_call key pt])
  else
    let out' := overwrite out (stored_text rnd key pt cap) in
    Some (Returned 0 (Some out') (Some (N.of_nat (strlen out')))
            [decode_call key; seal_call key pt; encode_call rnd key pt cap]).
Proof.
  rewrite encrypt_secret_run.
  destruct (negb (key_decodes key)); [reflexivity|].
  destruct (negb (seals rnd key pt)); [reflexivity|].
  destruct (N.ltb_spec cap (required_len pt)) as [Hlt|Hge]; [reflexivity|].
  change (sodium_bin2base64 cap (ciphertext_bytes rnd key pt))
    with (codecs.sodium_bin2base64 cap (ciphertext_bytes rnd key pt)).
  rewrite sodium_bin2base64_stores; [reflexivity|].
  rewrite length_ciphertext_bytes. rewrite required_len_text in Hge. lia.
Qed.

Lemma encrypt_secret_returns rnd k p o n :
  exists r, encrypt_secret rnd k p o n = Some r.
Proof.
  destruct k as [key|], p as [pt|], o as [out|], n as [cap|];
    try (eexists; reflexivity).
  rewrite encrypt_secret_libsodium.
  destruct (negb (key_decodes key)); [eexists; reflexivity|].
  destruct (negb (seals rnd key pt)); [eexists; reflexivity|].
  destruct (cap <? required_len pt); eexists; reflexivity.
Qed.


(** The key strings the decode stage accepts: the RFC 4648 texts of at most
    [crypto_box_PUBLICKEYBYTES] bytes.  The vector handed to the primitive
    holds those bytes and keeps its zero bytes after them. *)
Lemma key_decodes_iff key :
  key_decodes key = true
  <-> exists bin, c_str key = rfc4648 bin
                  /\ N.of_nat (length bin) <= crypto_box_PUBLICKEYBYTES.
Proof.
  unfold key_decodes. change sodium_base642bin with codecs.sodium_base642bin.
  split.
  - intros H.
    destruct (codecs.sodium_base642bin _ _) as [[ret bin] n] eqn:Hdec.
    cbn [fst] in H. apply Z.eqb_eq in H. subst ret.
    apply sodium_base642bin_accepts in Hdec. destruct Hdec as (Hk & Hlen & _).
    eauto.
  - intros (bin & Hk & Hlen).
    rewrite Hk, sodium_base642bin_rfc4648 by exact Hlen. reflexivity.
Qed.

Lemma key_bytes_padded key bin :
  c_str key = rfc4648 bin ->
  N.of_nat (length bin) <= crypto_box_PUBLICKEYBYTES ->
  key_bytes key
  = bin ++ repeat NUL (N.to_nat crypto_box_PUBLICKEYBYTES - length bin).
Proof.
  intros Hk Hlen. unfold key_bytes.
  change sodium_base642bin with codecs.sodium_base642bin.
  rewrite Hk, sodium_base642bin_rfc4648 by exact Hlen. cbn [fst snd].
  rewrite overwrite_fits by (rewrite length_vector; lia).
  f_equal. apply skipn_repeat.
Qed.

(** A key longer than [crypto_box_PUBLICKEYBYTES] bytes is refused. *)
Lemma long_key_refused key bin :
  c_str key = rfc4648 bin ->
  crypto_box_PUBLICKEYBYTES < N.of_nat (length bin) ->
  key_decodes key = false.
Proof.
  intros Hk Hlen. apply not_true_is_false. intros H.
  apply key_decodes_iff in H. destruct H as (bin' & Hk' & Hlen').
  rewrite Hk in Hk'. apply rfc4648_inj in Hk'. subst bin'. lia.
Qed.

(** C5: over libsodium every call returns, and a call that returns a status
    other than Success leaves the caller's output buffer as it was; unless
    the status is BufferTooSmall it leaves the capacity as it was, too, and
    with BufferTooSmall the capacity holds the required size. *)
Theorem C5_failure_frame rnd k p o n :
  exists r,
    encrypt_secret rnd k p o n = Some r
    /\ (status r <> Success ->
        output_after r = o
        /\ (status r <> BufferTooSmall -> output_len_after r = n)
        /\ (status r = BufferTooSmall ->
            exists pt, p = Some pt /\ output_len_after r = Some (required_len pt))).
Proof.
  destruct k as [key|], p as [pt|], o as [out|], n as [cap|];
    try (eexists; split; [reflexivity|]; cbn; intros _;
         repeat split; auto; discriminate).
  rewrite encrypt_secret_libsodium.
  destruct (negb (key_decodes key));
    [eexists; split; [reflexivity|]; cbn; intros _;
     repeat split; auto; discriminate|].
  destruct (negb (seals rnd key pt));
    [eexists; split; [reflexivity|]; cbn; intros _;
     repeat split; auto; discriminate|].
  destruct (cap <? required_len pt);
    eexists; (split; [reflexivity|]); cbn.
  - intros _. split; [reflexivity|]. split; [|eauto].
    unfold BufferTooSmall. intros H. now elim H.
  - unfold Success. intros H. now elim H.
Qed.

(** C3: for a key the decoder accepts and a plaintext the primitive seals,
    a call with capacity 0 returns BufferTooSmall (-4) without calling the
    encoder, leaves the output buffer as it was and sets the capacity to
    the required length; a call with exactly that capacity returns Success,
    and every smaller capacity is refused in the same way. *)
Theorem C3_buffer_negotiation rnd rnd' key pt out :
  key_decodes key = true ->
  seals rnd key pt = true ->
  seals rnd' key pt = true ->
  encrypt_secret rnd (Some key) (Some pt) (Some out) (Some 0)
  = Some (Returned BufferTooSmall (Some out) (Some (required_len pt))
            [decode_call key; seal_call key pt])
  /\ (exists r,
        encrypt_secret rnd' (Some key) (Some pt) (Some out)
          (Some (required_len pt)) = Some r
        /\ status r = Success)
  /\ (forall cap, cap < required_len pt ->
        encrypt_secret rnd' (Some key) (Some pt) (Some out) (Some cap)
        = Some (Returned BufferTooSmall (Some out) (Some (required_len pt))
                  [decode_call key; seal_call key pt])).
Proof.
  intros Hkey Hseal Hseal'.
  assert (Hpos : 0 < required_len pt) by (rewrite required_len_text; lia).
  repeat split.
  - rewrite encrypt_secret_libsodium, Hkey, Hseal. cbn [negb].
    destruct (N.ltb_spec 0 (required_len pt)); [reflexivity|lia].
  - rewrite encrypt_secret_libsodium, Hkey, Hseal'. cbn [negb].
    rewrite N.ltb_irrefl. eexists. split; reflexivity.
  - intros cap Hcap.
    rewrite encrypt_secret_libsodium, Hkey, Hseal'. cbn [negb].
    destruct (N.ltb_spec cap (required_len pt)); [reflexivity|lia].
Qed.

(** C10: the size the call requires counts the NUL terminator.  It is the
    length of the encoded text plus one; a call whose capacity is exactly
    the length of the encoded text returns BufferTooSmall and reports that
    size; a call that succeeds on a buffer of the capacity it declares
    reports the required size minus one. *)
Theorem C10_terminator_counted rnd key pt out cap :
  key_decodes key = true ->
  seals rnd key pt = true ->
  let text_len := N.of_nat (length (codecs.base64_text (ciphertext_bytes rnd key pt))) in
  required_len pt = text_len + 1
  /\ encrypt_secret rnd (Some key) (Some pt) (Some out) (Some text_len)
     = Some (Returned BufferTooSmall (Some out) (Some (required_len pt))
               [decode_call key; seal_call key pt])
  /\ (required_len pt <= cap -> cap <= N.of_nat (length out) ->
      exists r,
        encrypt_secret rnd (Some key) (Some pt) (Some out) (Some cap) = Some r
        /\ status r = Success
        /\ output_len_after r = Some (required_len pt - 1)).
Proof.
  intros Hkey Hseal text_len.
  assert (Hreq : required_len pt = text_len + 1).
  { unfold text_len.
    rewrite base64_text_length, length_ciphertext_bytes. apply required_len_text. }
  split; [exact Hreq|]. split.
  - rewrite encrypt_secret_libsodium, Hkey, Hseal. cbn [negb].
    destruct (N.ltb_spec text_len (required_len pt)); [reflexivity|lia].
  - intros Hcap Hout.
    rewrite encrypt_secret_libsodium, Hkey, Hseal. cbn [negb].
    destruct (N.ltb_spec cap (required_len pt)); [lia|].
    eexists. split; [reflexivity|]. split; [reflexivity|]. cbn.
    do 2 f_equal. unfold stored_text.
    subst text_len.
    set (text := codecs.base64_text (ciphertext_bytes rnd key pt)) in *.
    rewrite <- strlen_c_str, c_str_overwrite_text
      by (try apply base64_text_nul_free; lia).
    rewrite strlen_nul_free by apply base64_text_nul_free. lia.
Qed.

(** C8: a call that returns Success has overwritten the capacity with
    [strlen] of the output buffer, a value below the capacity supplied; on a
    buffer of the capacity it declares, the string in the buffer is the
    encoded text of the ciphertext, so the value is the length of that
    text. *)
Theorem C8_success_length rnd k p o n r :
  encrypt_secret rnd k p o n = Some r ->
  status r = Success ->
  exists key pt out cap out',
    k = Some key /\ p = Some pt /\ o = Some out /\ n = Some cap
    /\ output_after r = Some out'
    /\ out' = overwrite out (stored_text rnd key pt cap)
    /\ output_len_after r = Some (N.of_nat (strlen out'))
    /\ N.of_nat (strlen out') <= cap
    /\ (cap <= N.of_nat (length out) ->
        c_str out' = codecs.base64_text (ciphertext_bytes rnd key pt)).
Proof.
  intros Hr Hs.
  destruct k as [key|], p as [pt|], o as [out|], n as [cap|];
    try (inversion Hr; subst; discriminate Hs).
  rewrite encrypt_secret_libsodium in Hr.
  destruct (negb (key_decodes key)); [inversion Hr; subst; discriminate Hs|].
  destruct (negb (seals rnd key pt)); [inversion Hr; subst; discriminate Hs|].
  destruct (N.ltb_spec cap (required_len pt)) as [Hlt|Hge];
    [inversion Hr; subst; discriminate Hs|].
  inversion Hr; subst; clear Hr Hs. cbn.
  exists key, pt, out, cap, (overwrite out (stored_text rnd key pt cap)).
  repeat split; try reflexivity.
  - unfold stored_text.
    set (text := codecs.base64_text (ciphertext_bytes rnd key pt)).
    assert (Hlen : N.of_nat (length text) + 1 = required_len pt).
    { unfold text. rewrite base64_text_length, length_ciphertext_bytes.
      symmetry. apply required_len_text. }
    pose proof (strlen_overwrite_text out text (N.to_nat cap - length text)
                  (base64_text_nul_free _)) as H.
    lia.
  - intros Hout. unfold stored_text.
    set (text := codecs.base64_text (ciphertext_bytes rnd key pt)).
    assert (Hlen : N.of_nat (length text) + 1 = required_len pt).
    { unfold text. rewrite base64_text_length, length_ciphertext_bytes.
      symmetry. apply required_len_text. }
    apply c_str_overwrite_text; [apply base64_text_nul_free|lia|lia].
Qed.

(** C6: in a call that returns Success the ciphertext handed to the
    encoder has the length of the plaintext string (of all the bytes at
    [plaintext] when none is zero) plus [crypto_box_SEALBYTES]; its encoded
    text has 4 characters for every 3 bytes, rounded up, which is the value
    of [sodium_base64_ENCODED_LEN] less the terminator; and on a buffer of
    the capacity it declares that text is the string left in the output
    buffer. *)
Theorem C6_lengths rnd key pt out cap r :
  encrypt_secret rnd (Some key) (Some pt) (Some out) (Some cap) = Some r ->
  status r = Success ->
  let ct := ciphertext_bytes rnd key pt in
  let text := codecs.base64_text ct in
  calls r = [decode_call key; Call_box_seal (c_str pt) (key_bytes key);
             Call_bin2base64 cap ct]
  /\ N.of_nat (length ct) = N.of_nat (length (c_str pt)) + crypto_box_SEALBYTES
  /\ (nul_free pt = true ->
      N.of_nat (length ct) = N.of_nat (length pt) + crypto_box_SEALBYTES)
  /\ N.of_nat (length text) = 4 * ((N.of_nat (length ct) + 2) / 3)
  /\ N.of_nat (length text) + 1
     = codecs.sodium_base64_ENCODED_LEN (N.of_nat (length ct))
         codecs.sodium_base64_VARIANT_ORIGINAL
  /\ (cap <= N.of_nat (length out) ->
      exists out', output_after r = Some out' /\ c_str out' = text).
Proof.
  intros Hr Hs ct text.
  rewrite encrypt_secret_libsodium in Hr.
  destruct (negb (key_decodes key)); [inversion Hr; subst; discriminate Hs|].
  destruct (negb (seals rnd key pt)); [inversion Hr; subst; discriminate Hs|].
  destruct (N.ltb_spec cap (required_len pt)) as [Hlt|Hge];
    [inversion Hr; subst; discriminate Hs|].
  inversion Hr; subst r; clear Hr Hs. cbn [calls output_after].
  assert (Hct : N.of_nat (length ct) = ciphertext_len pt)
    by apply length_ciphertext_bytes.
  assert (Htext : N.of_nat (length text) = codecs.b64_len_of (N.of_nat (length ct)))
    by apply base64_text_length.
  split; [reflexivity|]. split.
  { rewrite Hct. unfold ciphertext_len.
    rewrite length_c_str. lia. }
  split.
  { intros Hnf. rewrite Hct. unfold ciphertext_len.
    rewrite (strlen_nul_free _ Hnf). lia. }
  split; [rewrite Htext; apply b64_len_of_ceil|].
  split; [rewrite Htext, ENCODED_LEN_ORIGINAL; reflexivity|].
  intros Hout. eexists. split; [reflexivity|].
  unfold stored_text. fold ct. fold text.
  rewrite required_len_text, <- Hct, <- Htext in Hge.
  apply c_str_overwrite_text; [apply base64_text_nul_free|lia|lia].
Qed.

(** C1, at the key string "Zm9v": the decoder returns 0 with a decoded
    length of 3, the call does not return InvalidKeyEncoding, and the
    sealing primitive is called with a key made of those 3 bytes and 29
    zero bytes. *)
Theorem C1_short_key_accepted rnd pt out cap :
  codecs.sodium_base642bin crypto_box_PUBLICKEYBYTES short_key_b64
  = (0%Z, list_ascii_of_string "foo", 3)
  /\ key_bytes short_key_b64 = list_ascii_of_string "foo" ++ repeat NUL 29
  /\ exists r,
       encrypt_secret rnd (Some short_key_b64) (Some pt) (Some out) (Some cap)
       = Some r
       /\ status r <> InvalidKeyEncoding
       /\ In (Call_box_seal (c_str pt) (list_ascii_of_string "foo" ++ repeat NUL 29))
            (calls r).
Proof.
  split; [vm_compute; reflexivity|]. split; [vm_compute; reflexivity|].
  assert (Hkey : key_decodes short_key_b64 = true) by (vm_compute; reflexivity).
  assert (Hcall : seal_call short_key_b64 pt
                  = Call_box_seal (c_str pt)
                      (list_ascii_of_string "foo" ++ repeat NUL 29)).
  { unfold seal_call. f_equal. }
  rewrite encrypt_secret_libsodium, Hkey. cbn [negb].
  destruct (negb (seals rnd short_key_b64 pt));
    [|destruct (cap <? required_len pt)];
    (eexists; split; [reflexivity|]; split;
     [cbn; unfold InvalidKeyEncoding; lia | rewrite <- Hcall; cbn; auto]).
Qed.

End OverLibsodium.

(* ===================================================================== *)
(** * Round trip through the sealed box *)
(* ===================================================================== *)

Section RoundTrip.

Variable E : Type.
Variable seal : E -> list ascii -> list ascii -> Z * list ascii.

(** The reference opening, [crypto_box_seal_open(m, c, clen, pk, sk)], and
    the relation between the two halves of a recipient's key pair. *)
Variable open : list ascii -> list ascii -> list ascii -> option (list ascii).
Variable keypair : list ascii -> list ascii -> Prop.

(** The contract of the sealed box: a public key has
    [crypto_box_PUBLICKEYBYTES] bytes; sealing to a key of a pair returns 0
    and stores [crypto_box_SEALBYTES] bytes more than the message; opening
    with the pair gives the message back. *)
Hypothesis keypair_length :
  forall pk sk, keypair pk sk -> N.of_nat (length pk) = crypto_box_PUBLICKEYBYTES.
Hypothesis seal_open :
  forall rnd m pk sk, keypair pk sk ->
    exists c, seal rnd m pk = (0%Z, c)
              /\ N.of_nat (length c) = crypto_box_SEALBYTES + N.of_nat (length m)
              /\ open c pk sk = Some m.

#[local] Hint Extern 0 Sodium => exact (libsodium E seal) : typeclass_instances.

(** C2: for a key pair of the sealed box, a call on a key string that is
    the base64 text of the public key, with room for the output, returns
    Success, and the string it leaves in the output buffer base64-decodes
    to a ciphertext that the reference opening, with the private key, turns
    back into the plaintext string: the bytes at [plaintext] up to the first
    zero byte, all of them when there is none. *)
Theorem C2_round_trip rnd pk sk key pt out cap :
  keypair pk sk ->
  c_str key = codecs.base64_text pk ->
  required_len pt <= cap ->
  cap <= N.of_nat (length out) ->
  exists r out' ct,
    encrypt_secret rnd (Some key) (Some pt) (Some out) (Some cap) = Some r
    /\ status r = Success
    /\ output_after r = Some out'
    /\ codecs.sodium_base642bin (N.of_nat (length ct)) (c_str out')
       = (0%Z, ct, N.of_nat (length ct))
    /\ open ct pk sk = Some (c_str pt)
    /\ (nul_free pt = true -> open ct pk sk = Some pt).
Proof.
  intros Hpair Hstr Hcap Hout.
  pose proof (keypair_length _ _ Hpair) as Hpk.
  destruct (seal_open rnd (c_str pt) pk sk Hpair) as (c & Hseal & Hlen & Hopen).
  assert (Hdec : codecs.sodium_base642bin crypto_box_PUBLICKEYBYTES (c_str key)
                 = (0%Z, pk, N.of_nat (length pk))).
  { rewrite Hstr, base64_text_rfc4648. apply sodium_base642bin_rfc4648. lia. }
  assert (Hkd : key_decodes key = true).
  { unfold key_decodes. change sodium_base642bin with codecs.sodium_base642bin.
    rewrite Hdec. reflexivity. }
  assert (Hkb : key_bytes key = pk).
  { unfold key_bytes. change sodium_base642bin with codecs.sodium_base642bin.
    rewrite Hdec. cbn [fst snd]. apply overwrite_exact.
    rewrite length_vector. lia. }
  assert (Hs : seals rnd key pt = true).
  { unfold seals. rewrite Hkb. change (crypto_box_seal rnd) with (seal rnd).
    rewrite Hseal. reflexivity. }
  assert (Hct : ciphertext_bytes rnd key pt = c).
  { unfold ciphertext_bytes. rewrite Hkb.
    change (crypto_box_seal rnd) with (seal rnd). rewrite Hseal. cbn [snd].
    apply overwrite_exact. rewrite length_vector. unfold ciphertext_len.
    rewrite length_c_str in Hlen. lia. }
  rewrite encrypt_secret_libsodium, Hkd, Hs. cbn [negb].
  destruct (N.ltb_spec cap (required_len pt)) as [Hlt|_]; [lia|].
  eexists. exists (overwrite out (stored_text rnd key pt cap)), c.
  split; [reflexivity|]. split; [reflexivity|]. split; [reflexivity|].
  split; [|split; [exact Hopen|]].
  2: { intros Hnf. rewrite Hopen, (c_str_of_nul_free _ Hnf). reflexivity. }
  unfold stored_text. rewrite Hct.
  assert (Htext : N.of_nat (length (codecs.base64_text c)) + 1 = required_len pt).
  { rewrite base64_text_length, <- Hct, length_ciphertext_bytes.
    symmetry. apply required_len_text. }
  rewrite c_str_overwrite_text by (try apply base64_text_nul_free; lia).
  rewrite base64_text_rfc4648. apply sodium_base642bin_rfc4648. lia.
Qed.

End RoundTrip.

(* ===================================================================== *)
(** * Instances: the end-to-end scenario with the stand-in primitive *)
(* ===================================================================== *)

Lemma toy_keypair_length pk sk :
  toy_keypair pk sk -> N.of_nat (length pk) = crypto_box_PUBLICKEYBYTES.
Proof. intros [H _]. rewrite H. reflexivity. Qed.

Lemma toy_seal_open (rnd : unit) m pk sk :
  toy_keypair pk sk ->
  exists c, toy_seal rnd m pk = (0%Z, c)
            /\ N.of_nat (length c) = crypto_box_SEALBYTES + N.of_nat (length m)
            /\ toy_open c pk sk = Some m.
Proof.
  intros [Hpk _]. eexists. split; [reflexivity|]. split.
  - rewrite !length_app, repeat_length, Hpk.
    change crypto_box_SEALBYTES with 48. lia.
  - unfold toy_open. f_equal.
    rewrite app_assoc, skipn_app.
    rewrite skipn_all2 by (rewrite length_app, repeat_length; lia).
    rewrite length_app, repeat_length, Hpk. reflexivity.
Qed.

Lemma scenario_keypair : toy_keypair scenario_key (rev scenario_key).
Proof. split; reflexivity. Qed.

(** The scenario of the specification: the key string decodes to 32 bytes,
    and is the base64 text of those bytes. *)
Example scenario_key_decodes :
  codecs.sodium_base642bin crypto_box_PUBLICKEYBYTES scenario_key_b64
  = (0%Z, scenario_key, 32).
Proof. vm_compute. reflexivity. Qed.

Example scenario_key_text : codecs.base64_text scenario_key = scenario_key_b64.
Proof. vm_compute. reflexivity. Qed.

(** An empty plaintext passes the argument check, whatever the library. *)
Lemma empty_plaintext_not_rejected {L : Sodium} rnd key out cap r :
  encrypt_secret rnd (Some key) (Some []) (Some out) (Some cap) = Some r ->
  status r <> InvalidArgument /\ In (decode_call key) (calls r).
Proof.
  intros Hr.
  destruct (stage_cases _ _ _ _ _ _ Hr) as [[[H|[H|[H|H]]] _]|Hrun];
    try discriminate H.
  destruct Hrun as (key' & pt & out' & cap' & Hk & _ & _ & _ & Hcase).
  injection Hk as <-.
  unfold InvalidArgument.
  destruct Hcase as [(_ & Hs & Hc)|[(_ & _ & Hs & Hc)|[(_ & _ & _ & Hs & Hc)
                    |[(_ & _ & _ & _ & Hs & Hc)|(_ & _ & _ & _ & Hs & Hc)]]]];
    rewrite Hs, Hc; (split; [discriminate | simpl; auto]).
Qed.

(** C4, counterexample: a call with an empty plaintext string on the
    scenario's key does not return InvalidArgument; it calls the decoder and
    the sealing primitive, on the empty message, and returns Success. *)
Lemma C4_empty_plaintext_sealed :
  exists r,
    encrypt_secret (L := libsodium unit toy_seal) tt
      (Some scenario_key_b64) (Some []) (Some (buffer 80)) (Some 80) = Some r
    /\ status r = Success
    /\ status r <> InvalidArgument
    /\ calls r = [Call_base642bin 32 scenario_key_b64;
                  Call_box_seal [] scenario_key;
                  Call_bin2base64 80 (scenario_key ++ repeat "t"%char 16)].
Proof.
  eexists. split; [vm_compute; reflexivity|]. cbn.
  split; [reflexivity|]. split; [discriminate|reflexivity].
Qed.

(** C4 on a call with a null key pointer. *)
Lemma C4_null_argument_witness :
  (@None (list ascii) = None \/ Some hello = None
   \/ Some (buffer 80) = None \/ Some 80 = None)
  /\ encrypt_secret (L := libsodium unit toy_seal) tt
       None (Some hello) (Some (buffer 80)) (Some 80)
     = Some (Returned InvalidArgument (Some (buffer 80)) (Some 80) []).
Proof.
  split; [left; reflexivity|].
  apply (C4_null_argument (L := libsodium unit toy_seal)).
  left; reflexivity.
Defined.

(** C7 on the scenario with capacity 0, which stops at the capacity check. *)
Lemma C7_stage_order_witness :
  exists r,
    encrypt_secret (L := libsodium unit toy_seal) tt
      (Some scenario_key_b64) (Some hello) (Some (buffer 8)) (Some 0) = Some r
    /\ status r = BufferTooSmall
    /\ NoDup [InvalidArgument; InvalidKeyEncoding; SealingFailed;
              BufferTooSmall; EncodingFailed; Success].
Proof.
  eexists. split; [vm_compute; reflexivity|]. split; [reflexivity|].
  eapply proj1.
  apply (C7_stage_order (L := libsodium unit toy_seal) tt
           (Some scenario_key_b64) (Some hello) (Some (buffer 8)) (Some 0)).
  vm_compute. reflexivity.
Defined.

(** C9 on the plaintext memory "hello", NUL, "tail". *)
Lemma C9_nul_terminated_witness :
  nul_free hello = true
  /\ encrypt_secret (L := libsodium unit toy_seal) tt (Some scenario_key_b64)
       (Some (hello ++ NUL :: list_ascii_of_string "tail"))
       (Some (buffer 80)) (Some 80)
     = encrypt_secret (L := libsodium unit toy_seal) tt (Some scenario_key_b64)
         (Some hello) (Some (buffer 80)) (Some 80).
Proof.
  split; [reflexivity|].
  apply (C9_nul_terminated (L := libsodium unit toy_seal)). reflexivity.
Defined.

(** C3 on the scenario: 73 characters are required for "hello". *)
Lemma C3_buffer_negotiation_witness :
  key_decodes (L := libsodium unit toy_seal) scenario_key_b64 = true
  /\ seals (L := libsodium unit toy_seal) tt scenario_key_b64 hello = true
  /\ encrypt_secret (L := libsodium unit toy_seal) tt
       (Some scenario_key_b64) (Some hello) (Some (buffer 8)) (Some 0)
     = Some (Returned BufferTooSmall (Some (buffer 8)) (Some (required_len hello))
               [decode_call scenario_key_b64;
                seal_call (L := libsodium unit toy_seal) scenario_key_b64 hello])
  /\ required_len hello = 73.
Proof.
  split; [vm_compute; reflexivity|]. split; [reflexivity|].
  split; [|reflexivity].
  eapply proj1.
  apply (C3_buffer_negotiation unit toy_seal tt tt scenario_key_b64 hello (buffer 8));
    [vm_compute; reflexivity | reflexivity | reflexivity].
Defined.

(** C10 on the scenario. *)
Lemma C10_terminator_counted_witness :
  key_decodes (L := libsodium unit toy_seal) scenario_key_b64 = true
  /\ seals (L := libsodium unit toy_seal) tt scenario_key_b64 hello = true
  /\ required_len hello
     = N.of_nat (length (codecs.base64_text
                           (ciphertext_bytes (L := libsodium unit toy_seal)
                              tt scenario_key_b64 hello))) + 1.
Proof.
  split; [vm_compute; reflexivity|]. split; [reflexivity|].
  eapply proj1.
  apply (C10_terminator_counted unit toy_seal tt scenario_key_b64 hello (buffer 80) 80);
    [vm_compute; reflexivity | reflexivity].
Defined.

(** C8 on the scenario with a buffer of 80 characters. *)
Lemma C8_success_length_witness :
  exists r,
    encrypt_secret (L := libsodium unit toy_seal) tt
      (Some scenario_key_b64) (Some hello) (Some (buffer 80)) (Some 80) = Some r
    /\ status r = Success
    /\ exists key pt out cap out',
         Some scenario_key_b64 = Some key /\ Some hello = Some pt
         /\ Some (buffer 80) = Some out /\ Some 80 = Some cap
         /\ output_after r = Some out'
         /\ out' = overwrite out
                     (stored_text (L := libsodium unit toy_seal) tt key pt cap)
         /\ output_len_after r = Some (N.of_nat (strlen out'))
         /\ N.of_nat (strlen out') <= cap
         /\ (cap <= N.of_nat (length out) ->
             c_str out'
             = codecs.base64_text
                 (ciphertext_bytes (L := libsodium unit toy_seal) tt key pt)).
Proof.
  eexists. split; [vm_compute; reflexivity|]. split; [reflexivity|].
  apply (C8_success_length unit toy_seal tt
           (Some scenario_key_b64) (Some hello) (Some (buffer 80)) (Some 80));
    vm_compute; reflexivity.
Defined.

(** C6 on the scenario with a buffer of 80 characters. *)
Lemma C6_lengths_witness :
  exists r,
    encrypt_secret (L := libsodium unit toy_seal) tt
      (Some scenario_key_b64) (Some hello) (Some (buffer 80)) (Some 80) = Some r
    /\ status r = Success
    /\ N.of_nat (length (ciphertext_bytes (L := libsodium unit toy_seal)
                           tt scenario_key_b64 hello))
       = N.of_nat (length (c_str hello)) + crypto_box_SEALBYTES.
Proof.
  eexists. split; [vm_compute; reflexivity|]. split; [reflexivity|].
  eapply proj1, proj2.
  apply (C6_lengths unit toy_seal tt scenario_key_b64 hello (buffer 80) 80);
    vm_compute; reflexivity.
Defined.

(** C2 on the scenario, with the stand-in for the sealed box. *)
Lemma C2_round_trip_witness :
  toy_keypair scenario_key (rev scenario_key)
  /\ c_str scenario_key_b64 = codecs.base64_text scenario_key
  /\ required_len hello <= 80
  /\ 80 <= N.of_nat (length (buffer 80))
  /\ exists r out' ct,
       encrypt_secret (L := libsodium unit toy_seal) tt
         (Some scenario_key_b64) (Some hello) (Some (buffer 80)) (Some 80)
       = Some r
       /\ status r = Success
       /\ output_after r = Some out'
       /\ codecs.sodium_base642bin (N.of_nat (length ct)) (c_str out')
          = (0%Z, ct, N.of_nat (length ct))
       /\ toy_open ct scenario_key (rev scenario_key) = Some (c_str hello)
       /\ (nul_free hello = true ->
           toy_open ct scenario_key (rev scenario_key) = Some hello).
Proof.
  split; [exact scenario_keypair|].
  split; [vm_compute; reflexivity|].
  split; [vm_compute; discriminate|].
  split; [vm_compute; discriminate|].
  apply (C2_round_trip unit toy_seal toy_open toy_keypair
           toy_keypair_length toy_seal_open tt
           scenario_key (rev scenario_key) scenario_key_b64 hello (buffer 80) 80).
  - exact scenario_keypair.
  - vm_compute; reflexivity.
  - vm_compute; discriminate.
  - vm_compute; discriminate.
Defined.

(* ===================================================================== *)
(** * Further properties: initialisation *)
(* ===================================================================== *)

Lemma crypto_init_calls_initialized es :
  Forall (fun x => x = 1%Z \/ x = (-1)%Z) (crypto_init_calls es true).
Proof.
  induction es as [|e es IH]; cbn [crypto_init_calls]; [constructor|].
  unfold crypto_init, core.sodium_init.
  destruct (negb (core.crit_enter e =? 0)%Z); [constructor; auto|].
  destruct (negb (core.crit_leave e =? 0)%Z); constructor; auto.
Qed.

Lemma crypto_init_calls_after es : forall initialized pre r post,
  crypto_init_calls es initialized = pre ++ r :: post ->
  r = 0%Z \/ r = 1%Z ->
  Forall (fun x => x = 1%Z \/ x = (-1)%Z) post.
Proof.
  induction es as [|e es IH]; intros initialized pre r post Hc Hr;
    cbn [crypto_init_calls] in Hc.
  - destruct pre; discriminate Hc.
  - destruct (crypto_init e initialized) as [[ret ini]|] eqn:Hcall;
      [|destruct pre; discriminate Hc].
    destruct pre as [|x pre]; cbn [app] in Hc.
    + injection Hc as -> Hpost.
      assert (ini = true).
      { unfold crypto_init, core.sodium_init in Hcall.
        destruct (negb (core.crit_enter e =? 0)%Z);
          [injection Hcall as <- _; destruct Hr; discriminate|].
        destruct initialized.
        - destruct (negb (core.crit_leave e =? 0)%Z); injection Hcall as _ <-; reflexivity.
        - destruct (negb (core.entropy_source e)); [discriminate|].
          destruct (negb (core.crit_leave e =? 0)%Z); injection Hcall as _ <-; reflexivity. }
      subst ini. rewrite <- Hpost. apply crypto_init_calls_initialized.
    + injection Hc as _ Hc. eapply IH; eauto.
Qed.

(** Initialisation succeeds at most once.  After a call of [crypto_init]
    that returned 0 or 1, every later call in the process returns 1 or -1,
    never 0; in a process where the lock and the entropy source work, the
    first call returns 0 and each later one returns 1. *)
Theorem crypto_init_returns_0_once es :
  (forall pre r post,
      crypto_init_calls es false = pre ++ r :: post ->
      r = 0%Z \/ r = 1%Z ->
      Forall (fun x => x = 1%Z \/ x = (-1)%Z) post)
  /\ (forall n, crypto_init_calls (repeat healthy (S n)) false
                = 0%Z :: repeat 1%Z n).
Proof.
  split.
  - intros pre r post. apply crypto_init_calls_after.
  - intros n. cbn. f_equal. induction n as [|n IH]; cbn; [reflexivity|].
    f_equal. exact IH.
Qed.

(* ===================================================================== *)
(** * Further properties: the codec as the operation calls it *)
(* ===================================================================== *)

Section Codec.
Import codecs.

(** The decoder inverts the encoder: on the text of [bin], with room for
    it, it returns 0 and stores [bin]. *)
Theorem codec_round_trip bin_maxlen bin :
  N.of_nat (length bin) <= bin_maxlen ->
  sodium_base642bin bin_maxlen (base64_text bin)
  = (0%Z, bin, N.of_nat (length bin)).
Proof.
  intros H. rewrite base64_text_rfc4648. apply sodium_base642bin_rfc4648, H.
Qed.

End Codec.

(* ===================================================================== *)
(** * Further properties: any library behind the interface *)
(* ===================================================================== *)

Section AnyLibraryMore.

Context {L : Sodium}.

Lemma encrypt_secret_key_ext rnd k1 k2 p o n :
  c_str k1 = c_str k2 ->
  encrypt_secret rnd (Some k1) p o n = encrypt_secret rnd (Some k2) p o n.
Proof.
  intros Hstr. destruct p as [pt|], o as [out|], n as [cap|]; try reflexivity.
  unfold encrypt_secret. fold (c_str k1). fold (c_str k2).
  rewrite Hstr. reflexivity.
Qed.

(** The key is read as a NUL-terminated string: what follows its first
    zero byte never reaches the decoder. *)
Theorem key_nul_terminated rnd pre post p o n :
  nul_free pre = true ->
  encrypt_secret rnd (Some (pre ++ NUL :: post)) p o n
  = encrypt_secret rnd (Some pre) p o n.
Proof.
  intros Hpre. apply encrypt_secret_key_ext.
  rewrite c_str_app_nul, c_str_of_nul_free by exact Hpre. reflexivity.
Qed.

Lemma length_key_bytes key :
  N.of_nat (length (key_bytes key)) = crypto_box_PUBLICKEYBYTES.
Proof. unfold key_bytes. rewrite length_overwrite, length_vector. lia. Qed.

Lemma length_ciphertext_any rnd key pt :
  N.of_nat (length (ciphertext_bytes rnd key pt)) = ciphertext_len pt.
Proof. unfold ciphertext_bytes. rewrite length_overwrite, length_vector. lia. Qed.

(** Every library call of a run is made within the library's contract:
    the key handed to the primitive has 32 bytes, the strings handed over
    hold no NUL, and the encoder is given room for the text and its
    terminator. *)
Theorem library_calls_in_contract rnd k p o n r :
  encrypt_secret rnd k p o n = Some r ->
  Forall call_in_contract (calls r).
Proof.
  intros Hr.
  destruct (stage_cases _ _ _ _ _ _ Hr) as [[_ [_ Hc]]|Hrun].
  { rewrite Hc. constructor. }
  destruct Hrun as (key & pt & out & cap & _ & _ & _ & _ & Hcase).
  assert (Hd : call_in_contract (decode_call key)).
  { split; [reflexivity | apply c_str_nul_free]. }
  assert (Hs : call_in_contract (seal_call key pt)).
  { split; [apply length_key_bytes | apply c_str_nul_free]. }
  assert (He : required_len pt <= cap -> call_in_contract (encode_call rnd key pt cap)).
  { intros Hcap. unfold encode_call, call_in_contract.
    rewrite length_ciphertext_any. split; [unfold ciphertext_len; lia | exact Hcap]. }
  destruct Hcase as [(_ & _ & ->)|[(_ & _ & _ & ->)|[(_ & _ & _ & _ & ->)
                    |[(_ & _ & Hcap & _ & _ & ->)|(_ & _ & Hcap & _ & _ & ->)]]]];
    repeat (apply Forall_cons; [solve [auto]|]); apply Forall_nil.
Qed.

(** An empty plaintext string is sealed like any other: the message handed
    to the primitive is empty and 65 characters are required. *)
Theorem empty_plaintext_sealed rnd key pt out cap r :
  strlen pt = 0%nat ->
  encrypt_secret rnd (Some key) (Some pt) (Some out) (Some cap) = Some r ->
  In (status r) [Success; InvalidKeyEncoding; SealingFailed; BufferTooSmall;
                 EncodingFailed]
  /\ Forall (fun c => match c with
                      | Call_box_seal m _ => m = []
                      | _ => True
                      end) (calls r)
  /\ required_len pt = 65.
Proof.
  intros Hlen Hr.
  assert (Hm : c_str pt = []) by (unfold c_str; rewrite Hlen; reflexivity).
  split; [|split].
  - destruct (stage_cases _ _ _ _ _ _ Hr) as [[[H|[H|[H|H]]] _]|Hrun];
      try discriminate H.
    destruct Hrun as (key' & pt' & out' & cap' & _ & _ & _ & _ & Hcase).
    destruct Hcase as [(_ & Hs & _)|[(_ & _ & Hs & _)|[(_ & _ & _ & Hs & _)
                      |[(_ & _ & _ & _ & Hs & _)|(_ & _ & _ & _ & Hs & _)]]]];
      rewrite Hs; cbn; auto 6.
  - destruct (stage_cases _ _ _ _ _ _ Hr) as [[_ [_ Hc]]|Hrun].
    { rewrite Hc. constructor. }
    destruct Hrun as (key' & pt' & out' & cap' & Hk & Hp & _ & _ & Hcase).
    injection Hk as <-. injection Hp as <-.
    assert (Hs : match seal_call key pt with
                 | Call_box_seal m _ => m = []
                 | _ => True
                 end) by exact Hm.
    destruct Hcase as [(_ & _ & ->)|[(_ & _ & _ & ->)|[(_ & _ & _ & _ & ->)
                      |[(_ & _ & _ & _ & _ & ->)|(_ & _ & _ & _ & _ & ->)]]]];
      repeat (apply Forall_cons; [first [exact Hs | exact I]|]); apply Forall_nil.
  - unfold required_len, ciphertext_len. rewrite Hlen. reflexivity.
Qed.

End AnyLibraryMore.

Lemma skipn_overwrite buf data :
  skipn (length data) (overwrite buf data) = skipn (length data) buf.
Proof.
  unfold overwrite.
  destruct (Nat.le_gt_cases (length data) (length buf)) as [Hle|Hgt].
  - rewrite firstn_all2 by lia. rewrite skipn_app, skipn_all, Nat.sub_diag.
    reflexivity.
  - rewrite (skipn_all2 buf) by lia. rewrite app_nil_r.
    apply skipn_all2. rewrite length_firstn. lia.
Qed.

(* ===================================================================== *)
(** * Further properties: the operation over libsodium *)
(* ===================================================================== *)

Section OverLibsodiumMore.

Variable E : Type.
Variable seal : E -> list ascii -> list ascii -> Z * list ascii.

#[local] Hint Extern 0 Sodium => exact (libsodium E seal) : typeclass_instances.

Lemma refused_key rnd key pt out cap :
  key_decodes key = false ->
  encrypt_secret rnd (Some key) (Some pt) (Some out) (Some cap)
  = Some (Returned InvalidKeyEncoding (Some out) (Some cap) [decode_call key]).
Proof.
  intros H. rewrite encrypt_secret_libsodium, H. reflexivity.
Qed.

(** A key string that is the text of more than 32 bytes is refused with
    InvalidKeyEncoding; nothing but the decoder is called and the caller's
    objects stay as they were. *)
Theorem long_key_returns_invalid_key rnd key bin pt out cap :
  c_str key = codecs.base64_text bin ->
  crypto_box_PUBLICKEYBYTES < N.of_nat (length bin) ->
  encrypt_secret rnd (Some key) (Some pt) (Some out) (Some cap)
  = Some (Returned InvalidKeyEncoding (Some out) (Some cap) [decode_call key]).
Proof.
  intros Hk Hlen. apply refused_key.
  apply (long_key_refused E seal key bin); [|exact Hlen].
  rewrite Hk. apply base64_text_rfc4648.
Qed.

(** A key string whose length is not a multiple of 4 (a text without its
    padding) is refused with InvalidKeyEncoding. *)
Theorem ragged_key_returns_invalid_key rnd key pt out cap :
  N.of_nat (strlen key) mod 4 <> 0 ->
  encrypt_secret rnd (Some key) (Some pt) (Some out) (Some cap)
  = Some (Returned InvalidKeyEncoding (Some out) (Some cap) [decode_call key]).
Proof.
  intros Hmod. apply refused_key. apply not_true_is_false. intros H.
  apply key_decodes_iff in H. destruct H as (bin & Hk & _).
  apply Hmod. rewrite <- length_c_str, Hk, rfc4648_length, b64_len_of_ceil. lia.
Qed.

(** A key string that is the text of at most 32 bytes passes the decode
    stage, whatever its length: the primitive is called with those bytes
    followed by zero bytes up to 32. *)
Theorem short_key_zero_padded rnd key bin pt out cap :
  c_str key = codecs.base64_text bin ->
  N.of_nat (length bin) <= crypto_box_PUBLICKEYBYTES ->
  exists r,
    encrypt_secret rnd (Some key) (Some pt) (Some out) (Some cap) = Some r
    /\ In (Call_box_seal (c_str pt)
             (bin ++ repeat NUL (N.to_nat crypto_box_PUBLICKEYBYTES - length bin)))
          (calls r)
    /\ In (status r) [Success; SealingFailed; BufferTooSmall].
Proof.
  intros Hk Hlen. rewrite base64_text_rfc4648 in Hk.
  assert (Hd : key_decodes key = true) by (apply key_decodes_iff; eauto).
  pose proof (key_bytes_padded E seal key bin Hk Hlen) as Hb.
  rewrite encrypt_secret_libsodium, Hd. cbn [negb].
  unfold seal_call. rewrite Hb.
  destruct (negb (seals rnd key pt)); [|destruct (cap <? required_len pt)];
    (eexists; split; [reflexivity|]; cbn; auto 6).
Qed.

Lemma text_length_required rnd key pt :
  N.of_nat (length (codecs.base64_text (ciphertext_bytes rnd key pt))) + 1
  = required_len pt.
Proof.
  rewrite base64_text_length, (length_ciphertext_bytes E seal).
  symmetry. apply required_len_text.
Qed.

Lemma length_stored_text rnd key pt cap :
  required_len pt <= cap ->
  length (stored_text rnd key pt cap) = N.to_nat cap.
Proof.
  intros Hcap. unfold stored_text. rewrite length_app, repeat_length.
  pose proof (text_length_required rnd key pt). lia.
Qed.

(** Over libsodium the call never returns EncodingFailed: the status is
    one of 0, -1, -2, -3, -4. *)
Theorem encoding_failed_never_returned rnd k p o n :
  exists r,
    encrypt_secret rnd k p o n = Some r
    /\ In (status r) [Success; InvalidArgument; InvalidKeyEncoding;
                      SealingFailed; BufferTooSmall].
Proof.
  destruct k as [key|], p as [pt|], o as [out|], n as [cap|];
    try (eexists; split; [reflexivity|]; cbn; auto).
  rewrite (encrypt_secret_libsodium E seal).
  destruct (negb (key_decodes key)); [eexists; split; [reflexivity|]; cbn; auto|].
  destruct (negb (seals rnd key pt)); [eexists; split; [reflexivity|]; cbn; auto 6|].
  destruct (cap <? required_len pt); eexists; (split; [reflexivity|]); cbn; auto 6.
Qed.

(** The call never writes past the capacity it is given: the output buffer
    keeps its size, and its bytes from the capacity on stay as they
    were. *)
Theorem output_frame rnd k p out cap r :
  encrypt_secret rnd k p (Some out) (Some cap) = Some r ->
  exists out',
    output_after r = Some out'
    /\ length out' = length out
    /\ skipn (N.to_nat cap) out' = skipn (N.to_nat cap) out.
Proof.
  intros Hr.
  destruct k as [key|], p as [pt|];
    try (inversion Hr; subst; cbn; eauto).
  rewrite (encrypt_secret_libsodium E seal) in Hr.
  destruct (negb (key_decodes key)); [inversion Hr; subst; cbn; eauto|].
  destruct (negb (seals rnd key pt)); [inversion Hr; subst; cbn; eauto|].
  destruct (N.ltb_spec cap (required_len pt)) as [Hlt|Hge];
    [inversion Hr; subst; cbn; eauto|].
  inversion Hr; subst; cbn. eexists. split; [reflexivity|].
  split; [apply length_overwrite|].
  rewrite <- (length_stored_text rnd key pt cap Hge). apply skipn_overwrite.
Qed.

(** After Success, on a buffer of the capacity declared, all of the
    capacity has been written: the text, then NUL up to the capacity.  The
    text is shorter than the capacity, its length is a multiple of 4, and
    its characters are of the standard alphabet or the padding. *)
Theorem success_buffer_layout rnd k p out cap r :
  encrypt_secret rnd k p (Some out) (Some cap) = Some r ->
  status r = Success ->
  cap <= N.of_nat (length out) ->
  exists text,
    output_after r
    = Some (text ++ repeat NUL (N.to_nat cap - length text)
                 ++ skipn (N.to_nat cap) out)
    /\ N.of_nat (length text) < cap
    /\ N.of_nat (length text) mod 4 = 0
    /\ Forall (fun c => codecs.b64_char_to_byte (N_of_ascii c) < 64
                        \/ c = "="%char) text.
Proof.
  intros Hr Hs Hout.
  destruct k as [key|], p as [pt|];
    try (inversion Hr; subst; discriminate Hs).
  rewrite (encrypt_secret_libsodium E seal) in Hr.
  destruct (negb (key_decodes key)); [inversion Hr; subst; discriminate Hs|].
  destruct (negb (seals rnd key pt)); [inversion Hr; subst; discriminate Hs|].
  destruct (N.ltb_spec cap (required_len pt)) as [Hlt|Hge];
    [inversion Hr; subst; discriminate Hs|].
  inversion Hr; subst; clear Hr Hs. cbn [output_after].
  pose proof (text_length_required rnd key pt) as Hlen.
  pose proof (length_stored_text rnd key pt cap Hge) as Hst.
  exists (codecs.base64_text (ciphertext_bytes rnd key pt)).
  split; [|split; [lia|split]].
  - rewrite overwrite_fits by lia. rewrite Hst.
    unfold stored_text. rewrite <- app_assoc. reflexivity.
  - rewrite base64_text_length, b64_len_of_ceil. lia.
  - apply Forall_forall. intros c Hc. rewrite base64_text_rfc4648 in Hc.
    apply rfc4648_chars in Hc. exact Hc.
Qed.

(** No call with a capacity below 65 succeeds: 64 characters and the
    terminator are needed even for the empty plaintext. *)
Theorem small_capacity_never_succeeds rnd k p o cap r :
  encrypt_secret rnd k p o (Some cap) = Some r ->
  cap < 65 ->
  In (status r) [InvalidArgument; InvalidKeyEncoding; SealingFailed; BufferTooSmall].
Proof.
  intros Hr Hcap.
  destruct k as [key|], p as [pt|], o as [out|];
    try (inversion Hr; subst; cbn; auto).
  rewrite (encrypt_secret_libsodium E seal) in Hr.
  destruct (negb (key_decodes key)); [inversion Hr; subst; cbn; auto|].
  destruct (negb (seals rnd key pt)); [inversion Hr; subst; cbn; auto|].
  assert (Hreq : 65 <= required_len pt).
  { rewrite (required_len_text), b64_len_of_ceil. unfold ciphertext_len.
    change crypto_box_SEALBYTES with 48. lia. }
  destruct (N.ltb_spec cap (required_len pt)) as [Hlt|Hge]; [|lia].
  inversion Hr; subst; cbn; auto 6.
Qed.

(** With the same key, plaintext and randomness, the text produced does
    not depend on the capacity, once sufficient, nor on what the output
    buffer held. *)
Theorem text_independent_of_buffer rnd key pt out1 out2 cap1 cap2 :
  key_decodes key = true ->
  seals rnd key pt = true ->
  required_len pt <= cap1 -> cap1 <= N.of_nat (length out1) ->
  required_len pt <= cap2 -> cap2 <= N.of_nat (length out2) ->
  exists r1 r2 o1 o2,
    encrypt_secret rnd (Some key) (Some pt) (Some out1) (Some cap1) = Some r1
    /\ encrypt_secret rnd (Some key) (Some pt) (Some out2) (Some cap2) = Some r2
    /\ status r1 = Success /\ status r2 = Success
    /\ output_after r1 = Some o1 /\ output_after r2 = Some o2
    /\ c_str o1 = c_str o2
    /\ output_len_after r1 = output_len_after r2.
Proof.
  intros Hk Hs H1 Ho1 H2 Ho2.
  pose proof (text_length_required rnd key pt) as Hlen.
  rewrite !(encrypt_secret_libsodium E seal), Hk, Hs. cbn [negb].
  destruct (N.ltb_spec cap1 (required_len pt)); [lia|].
  destruct (N.ltb_spec cap2 (required_len pt)); [lia|].
  do 4 eexists. do 6 (split; [reflexivity|]). cbn [output_len_after].
  assert (Hc : forall out cap, required_len pt <= cap -> cap <= N.of_nat (length out) ->
                 c_str (overwrite out (stored_text rnd key pt cap))
                 = codecs.base64_text (ciphertext_bytes rnd key pt)).
  { intros out cap Hcap Hout. unfold stored_text.
    apply c_str_overwrite_text; [apply base64_text_nul_free|lia|lia]. }
  split.
  - rewrite !Hc by assumption. reflexivity.
  - rewrite <- (strlen_c_str (overwrite out1 _)), <- (strlen_c_str (overwrite out2 _)).
    rewrite !Hc by assumption. reflexivity.
Qed.

End OverLibsodiumMore.

(* ===================================================================== *)
(** * Further instances *)
(* ===================================================================== *)

(** A key of 33 bytes on the scenario. *)
Lemma long_key_returns_invalid_key_witness :
  c_str (codecs.base64_text long_key) = codecs.base64_text long_key
  /\ crypto_box_PUBLICKEYBYTES < N.of_nat (length long_key)
  /\ encrypt_secret (L := libsodium unit toy_seal) tt
       (Some (codecs.base64_text long_key)) (Some hello)
       (Some (buffer 80)) (Some 80)
     = Some (Returned InvalidKeyEncoding (Some (buffer 80)) (Some 80)
               [decode_call (codecs.base64_text long_key)]).
Proof.
  split; [vm_compute; reflexivity|]. split; [vm_compute; reflexivity|].
  apply (long_key_returns_invalid_key unit toy_seal tt
           (codecs.base64_text long_key) long_key hello (buffer 80) 80);
    vm_compute; reflexivity.
Defined.

(** The text "Zm8", which lacks its padding. *)
Lemma ragged_key_returns_invalid_key_witness :
  N.of_nat (strlen unpadded_key_b64) mod 4 = 3
  /\ encrypt_secret (L := libsodium unit toy_seal) tt
       (Some unpadded_key_b64) (Some hello) (Some (buffer 80)) (Some 80)
     = Some (Returned InvalidKeyEncoding (Some (buffer 80)) (Some 80)
               [decode_call unpadded_key_b64]).
Proof.
  split; [reflexivity|].
  apply (ragged_key_returns_invalid_key unit toy_seal tt
           unpadded_key_b64 hello (buffer 80) 80).
  vm_compute. discriminate.
Defined.

(** The three-byte key "foo". *)
Lemma short_key_zero_padded_witness :
  c_str short_key_b64 = codecs.base64_text (list_ascii_of_string "foo")
  /\ N.of_nat (length (list_ascii_of_string "foo")) <= crypto_box_PUBLICKEYBYTES
  /\ exists r,
       encrypt_secret (L := libsodium unit toy_seal) tt
         (Some short_key_b64) (Some hello) (Some (buffer 80)) (Some 80) = Some r
       /\ In (Call_box_seal (c_str hello)
                (list_ascii_of_string "foo"
                 ++ repeat NUL (N.to_nat crypto_box_PUBLICKEYBYTES
                                - length (list_ascii_of_string "foo"))))
             (calls r)
       /\ In (status r) [Success; SealingFailed; BufferTooSmall].
Proof.
  split; [vm_compute; reflexivity|]. split; [vm_compute; discriminate|].
  apply (short_key_zero_padded unit toy_seal tt short_key_b64
           (list_ascii_of_string "foo") hello (buffer 80) 80);
    [vm_compute; reflexivity | vm_compute; discriminate].
Defined.

(** The scenario's key followed by NUL and more bytes. *)
Lemma key_nul_terminated_witness :
  nul_free scenario_key_b64 = true
  /\ encrypt_secret (L := libsodium unit toy_seal) tt
       (Some (scenario_key_b64 ++ NUL :: list_ascii_of_string "junk"))
       (Some hello) (Some (buffer 80)) (Some 80)
     = encrypt_secret (L := libsodium unit toy_seal) tt
         (Some scenario_key_b64) (Some hello) (Some (buffer 80)) (Some 80).
Proof.
  split; [reflexivity|].
  apply (key_nul_terminated (L := libsodium unit toy_seal)). reflexivity.
Defined.

(** The three calls of the scenario. *)
Lemma library_calls_in_contract_witness :
  exists r,
    encrypt_secret (L := libsodium unit toy_seal) tt
      (Some scenario_key_b64) (Some hello) (Some (buffer 80)) (Some 80) = Some r
    /\ length (calls r) = 3%nat
    /\ Forall call_in_contract (calls r).
Proof.
  eexists. split; [vm_compute; reflexivity|]. split; [reflexivity|].
  apply (library_calls_in_contract (L := libsodium unit toy_seal) tt
           (Some scenario_key_b64) (Some hello) (Some (buffer 80)) (Some 80)).
  vm_compute. reflexivity.
Defined.

(** The scenario with the empty plaintext. *)
Lemma empty_plaintext_sealed_witness :
  exists r,
    strlen [] = 0%nat
    /\ encrypt_secret (L := libsodium unit toy_seal) tt
         (Some scenario_key_b64) (Some []) (Some (buffer 80)) (Some 80) = Some r
    /\ status r = Success
    /\ required_len [] = 65.
Proof.
  eexists. split; [reflexivity|]. split; [vm_compute; reflexivity|].
  split; [reflexivity|].
  eapply proj2, proj2.
  apply (empty_plaintext_sealed (L := libsodium unit toy_seal) tt
           scenario_key_b64 [] (buffer 80) 80);
    [reflexivity | vm_compute; reflexivity].
Defined.

(** The scenario on a buffer of 80 characters with a capacity of 75. *)
Lemma output_frame_witness :
  exists r,
    encrypt_secret (L := libsodium unit toy_seal) tt
      (Some scenario_key_b64) (Some hello) (Some (buffer 80)) (Some 75) = Some r
    /\ status r = Success
    /\ exists out',
         output_after r = Some out'
         /\ length out' = length (buffer 80)
         /\ skipn (N.to_nat 75) out' = skipn (N.to_nat 75) (buffer 80).
Proof.
  eexists. split; [vm_compute; reflexivity|]. split; [reflexivity|].
  apply (output_frame unit toy_seal tt
           (Some scenario_key_b64) (Some hello) (buffer 80) 75).
  vm_compute. reflexivity.
Defined.

(** The same call: 72 characters of text, three NUL, five bytes untouched. *)
Lemma success_buffer_layout_witness :
  exists r,
    encrypt_secret (L := libsodium unit toy_seal) tt
      (Some scenario_key_b64) (Some hello) (Some (buffer 80)) (Some 75) = Some r
    /\ status r = Success
    /\ 75 <= N.of_nat (length (buffer 80))
    /\ exists text,
         output_after r
         = Some (text ++ repeat NUL (N.to_nat 75 - length text)
                      ++ skipn (N.to_nat 75) (buffer 80))
         /\ N.of_nat (length text) < 75
         /\ N.of_nat (length text) mod 4 = 0
         /\ Forall (fun c => codecs.b64_char_to_byte (N_of_ascii c) < 64
                             \/ c = "="%char) text.
Proof.
  eexists. split; [vm_compute; reflexivity|]. split; [reflexivity|].
  split; [vm_compute; discriminate|].
  apply (success_buffer_layout unit toy_seal tt
           (Some scenario_key_b64) (Some hello) (buffer 80) 75);
    [vm_compute; reflexivity | reflexivity | vm_compute; discriminate].
Defined.

(** The scenario with the empty plaintext and a capacity of 64. *)
Lemma small_capacity_never_succeeds_witness :
  exists r,
    encrypt_secret (L := libsodium unit toy_seal) tt
      (Some scenario_key_b64) (Some []) (Some (buffer 80)) (Some 64) = Some r
    /\ 64 < 65
    /\ status r = BufferTooSmall
    /\ In (status r)
          [InvalidArgument; InvalidKeyEncoding; SealingFailed; BufferTooSmall].
Proof.
  eexists. split; [vm_compute; reflexivity|]. split; [reflexivity|].
  split; [reflexivity|].
  apply (small_capacity_never_succeeds unit toy_seal tt
           (Some scenario_key_b64) (Some []) (Some (buffer 80)) 64);
    [vm_compute; reflexivity | reflexivity].
Defined.

(** The scenario on two buffers, with capacities 73 and 90. *)
Lemma text_independent_of_buffer_witness :
  key_decodes (L := libsodium unit toy_seal) scenario_key_b64 = true
  /\ seals (L := libsodium unit toy_seal) tt scenario_key_b64 hello = true
  /\ required_len hello <= 73 /\ 73 <= N.of_nat (length (buffer 80))
  /\ required_len hello <= 90 /\ 90 <= N.of_nat (length (repeat "x"%char 100))
  /\ exists r1 r2 o1 o2,
       encrypt_secret (L := libsodium unit toy_seal) tt
         (Some scenario_key_b64) (Some hello) (Some (buffer 80)) (Some 73)
       = Some r1
       /\ encrypt_secret (L := libsodium unit toy_seal) tt
            (Some scenario_key_b64) (Some hello)
            (Some (repeat "x"%char 100)) (Some 90)
          = Some r2
       /\ status r1 = Success /\ status r2 = Success
       /\ output_after r1 = Some o1 /\ output_after r2 = Some o2
       /\ c_str o1 = c_str o2
       /\ output_len_after r1 = output_len_after r2.
Proof.
  split; [vm_compute; reflexivity|]. split; [reflexivity|].
  split; [vm_compute; discriminate|]. split; [vm_compute; discriminate|].
  split; [vm_compute; discriminate|]. split; [vm_compute; discriminate|].
  apply (text_independent_of_buffer unit toy_seal tt scenario_key_b64 hello
           (buffer 80) (repeat "x"%char 100) 73 90);
    first [reflexivity | vm_compute; reflexivity | vm_compute; discriminate].
Defined.

(** The five bytes "hello" with room for eight. *)
Lemma codec_round_trip_witness :
  N.of_nat (length hello) <= 8
  /\ codecs.sodium_base642bin 8 (codecs.base64_text hello)
     = (0%Z, hello, N.of_nat (length hello)).
Proof.
  split; [vm_compute; discriminate|].
  apply (codec_round_trip 8 hello). vm_compute; discriminate.
Defined.

(* ===================================================================== *)
(** * The decoder where [char] is signed or not *)
(* ===================================================================== *)

Lemma all_chars_complete c : In c all_chars.
Proof.
  unfold all_chars. apply in_map_iff. exists (N.to_nat (N_of_ascii c)).
  split.
  - rewrite N2Nat.id. apply ascii_N_embedding.
  - apply in_seq. pose proof (N_of_ascii_lt c). lia.
Qed.

(** Where [char] is unsigned the masks select what [codecs.b64_char_to_byte]
    gives, on every character. *)
Lemma char_to_byte_unsigned c :
  char_to_byte false c = codecs.b64_char_to_byte (N_of_ascii c).
Proof.
  assert (H : forallb (fun c => char_to_byte false c
                                =? codecs.b64_char_to_byte (N_of_ascii c))
                all_chars = true) by (vm_compute; reflexivity).
  rewrite forallb_forall in H. apply N.eqb_eq, H, all_chars_complete.
Qed.

(** Where [char] is signed they do on the 7-bit characters, and select 63
    on every other one. *)
Lemma char_to_byte_signed c :
  char_to_byte true c
  = if N_of_ascii c <? 128 then codecs.b64_char_to_byte (N_of_ascii c) else 63.
Proof.
  assert (H : forallb (fun c => char_to_byte true c
                                =? (if N_of_ascii c <? 128
                                    then codecs.b64_char_to_byte (N_of_ascii c)
                                    else 63))
                all_chars = true) by (vm_compute; reflexivity).
  rewrite forallb_forall in H. apply N.eqb_eq, H, all_chars_complete.
Qed.

(** The library's value of a character is the embedded decoder's value of
    the character it is read as. *)
Lemma char_to_byte_read_as char_signed c :
  char_to_byte char_signed c
  = codecs.b64_char_to_byte (N_of_ascii (read_as char_signed c)).
Proof.
  destruct char_signed.
  - assert (H : forallb (fun c => char_to_byte true c
                                  =? codecs.b64_char_to_byte
                                       (N_of_ascii (read_as true c)))
                  all_chars = true) by (vm_compute; reflexivity).
    rewrite forallb_forall in H. apply N.eqb_eq, H, all_chars_complete.
  - apply char_to_byte_unsigned.
Qed.

Lemma read_as_7bit char_signed c :
  (N_of_ascii c <? 128) = true -> read_as char_signed c = c.
Proof.
  intros H. unfold read_as. apply N.ltb_lt in H.
  destruct (N.leb_spec 128 (N_of_ascii c)); [lia|].
  rewrite andb_false_r. reflexivity.
Qed.

Lemma map_read_as_7bit char_signed s :
  seven_bit s = true -> map (read_as char_signed) s = s.
Proof.
  unfold seven_bit. induction s as [|c s IH]; cbn [forallb map]; [reflexivity|].
  intros H. apply andb_prop in H. destruct H as [Hc Hs].
  rewrite read_as_7bit, IH by assumption. reflexivity.
Qed.

Lemma map_read_as_unsigned s : map (read_as false) s = s.
Proof. apply map_id. Qed.

Lemma read_as_padding char_signed c :
  (read_as char_signed c =? "=")%char = (c =? "=")%char.
Proof.
  unfold read_as. destruct char_signed; [|reflexivity]. cbn [andb].
  destruct (N.leb_spec 128 (N_of_ascii c)) as [H|H]; [|reflexivity].
  symmetry. apply Ascii.eqb_neq. intros ->. vm_compute in H. apply H. reflexivity.
Qed.

Lemma skip_padding_read_as char_signed n : forall rest,
  codecs.skip_padding (map (read_as char_signed) rest) n
  = (fst (codecs.skip_padding rest n),
     map (read_as char_signed) (snd (codecs.skip_padding rest n))).
Proof.
  induction n as [|n IH]; intros [|c rest]; cbn [codecs.skip_padding map fst snd];
    try reflexivity.
  rewrite read_as_padding. destruct (c =? "=")%char; [apply IH|reflexivity].
Qed.

Lemma base642bin_end_read_as char_signed ret rest acc acc_len bin :
  codecs.base642bin_end (ret, map (read_as char_signed) rest, acc, acc_len, bin)
  = codecs.base642bin_end (ret, rest, acc, acc_len, bin).
Proof.
  unfold codecs.base642bin_end.
  destruct ((4 <? acc_len) || negb (N.land acc (N.shiftl 1 acc_len - 1) =? 0)).
  - destruct (negb (-1 =? 0)%Z); [reflexivity|]. destruct rest; reflexivity.
  - destruct (ret =? 0)%Z eqn:Hret.
    + rewrite skip_padding_read_as.
      destruct (codecs.skip_padding rest _) as [ret' rest']. cbn [fst snd].
      destruct (negb (ret' =? 0)%Z); [reflexivity|]. destruct rest'; reflexivity.
    + rewrite Hret. reflexivity.
Qed.

Lemma base642bin_loop_read_as char_signed maxlen b64 : forall acc acc_len bin,
  codecs.base642bin_loop maxlen (map (read_as char_signed) b64) acc acc_len bin
  = let '(ret, rest, acc', acc_len', bin') :=
      base642bin_loop_on (char_to_byte char_signed) maxlen b64 acc acc_len bin in
    (ret, map (read_as char_signed) rest, acc', acc_len', bin').
Proof.
  induction b64 as [|c b64 IH]; intros acc acc_len bin; [reflexivity|].
  cbn [map base642bin_loop_on codecs.base642bin_loop].
  rewrite <- char_to_byte_read_as.
  destruct (char_to_byte char_signed c =? 255); [reflexivity|].
  destruct (8 <=? acc_len + 6); [|apply IH].
  destruct (maxlen <=? N.of_nat (length bin)); [reflexivity|apply IH].
Qed.

(** The decoder, where [char] is signed or not, is the embedded decoder on
    the string as it is read. *)
Lemma sodium_base642bin_on_read_as char_signed maxlen b64 :
  sodium_base642bin_on char_signed maxlen b64
  = codecs.sodium_base642bin maxlen (map (read_as char_signed) b64).
Proof.
  unfold sodium_base642bin_on, codecs.sodium_base642bin.
  rewrite base642bin_loop_read_as.
  destruct (base642bin_loop_on _ _ _ _ _ _) as [[[[ret rest] acc] acc_len] bin].
  symmetry. apply base642bin_end_read_as.
Qed.

(** On a 7-bit string the decoder is the same whether [char] is signed or
    not, and where it is unsigned it is the embedded decoder on every
    string. *)
Lemma sodium_base642bin_on_7bit char_signed maxlen b64 :
  seven_bit b64 = true ->
  sodium_base642bin_on char_signed maxlen b64
  = codecs.sodium_base642bin maxlen b64.
Proof.
  intros H. rewrite sodium_base642bin_on_read_as, map_read_as_7bit by exact H.
  reflexivity.
Qed.

Lemma sodium_base642bin_on_unsigned maxlen b64 :
  sodium_base642bin_on false maxlen b64 = codecs.sodium_base642bin maxlen b64.
Proof.
  rewrite sodium_base642bin_on_read_as, map_read_as_unsigned. reflexivity.
Qed.

(** Where [char] is signed the decoder takes a byte of 0x80 or more for
    ['/']: it returns 0 on the bytes 41 41 41 FF, which no encoder writes. *)
Example high_byte_key_decodes :
  sodium_base642bin_on true crypto_box_PUBLICKEYBYTES high_byte_key
  = (0%Z, [ascii_of_N 0; ascii_of_N 0; ascii_of_N 63], 3)
  /\ codecs.sodium_base642bin crypto_box_PUBLICKEYBYTES high_byte_key
     = ((-1)%Z, [ascii_of_N 0; ascii_of_N 0], 0).
Proof. split; vm_compute; reflexivity. Qed.



(** The decoder is strict: it returns 0 on a string exactly when the string
    as it is read, a byte of 0x80 or more as ['/'] where [char] is signed,
    is a text the encoder writes for at most [bin_maxlen] bytes. *)
Theorem decoder_accepts_encoder_texts_only char_signed bin_maxlen b64 :
  fst (fst (sodium_base642bin_on char_signed bin_maxlen b64)) = 0%Z
  <-> exists bin,
        map (read_as char_signed) b64 = codecs.base64_text bin
        /\ N.of_nat (length bin) <= bin_maxlen.
Proof.
  rewrite sodium_base642bin_on_read_as. split.
  - intros H.
    destruct (codecs.sodium_base642bin bin_maxlen _) as [[ret bin] n] eqn:Hd.
    cbn [fst] in H. subst ret. apply sodium_base642bin_accepts in Hd.
    destruct Hd as (Hb & Hlen & _). exists bin.
    rewrite base64_text_rfc4648. auto.
  - intros (bin & Hb & Hlen).
    rewrite Hb, base64_text_rfc4648, sodium_base642bin_rfc4648 by exact Hlen.
    reflexivity.
Qed.

(** On a string of 7-bit characters, whatever the signedness of [char], the
    decoder returns 0 exactly on the texts the encoder writes. *)
Lemma decoder_accepts_7bit char_signed bin_maxlen b64 :
  seven_bit b64 = true ->
  fst (fst (sodium_base642bin_on char_signed bin_maxlen b64)) = 0%Z
  <-> exists bin, b64 = codecs.base64_text bin
                  /\ N.of_nat (length bin) <= bin_maxlen.
Proof.
  intros H7. rewrite sodium_base642bin_on_read_as, map_read_as_7bit by exact H7.
  split.
  - intros H.
    destruct (codecs.sodium_base642bin bin_maxlen _) as [[ret bin] n] eqn:Hd.
    cbn [fst] in H. subst ret. apply sodium_base642bin_accepts in Hd.
    destruct Hd as (Hb & Hlen & _). exists bin.
    rewrite base64_text_rfc4648. auto.
  - intros (bin & Hb & Hlen).
    rewrite Hb, base64_text_rfc4648, sodium_base642bin_rfc4648 by exact Hlen.
    reflexivity.
Qed.

(* ===================================================================== *)
(** * The operation over libsodium, where [char] is signed or not *)
(* ===================================================================== *)

Section OverLibsodiumOn.

Variable char_signed : bool.
Variable E : Type.
Variable seal : E -> list ascii -> list ascii -> Z * list ascii.

#[local] Hint Extern 0 Sodium =>
  exact (libsodium_on char_signed E seal) : typeclass_instances.

Lemma encrypt_secret_libsodium_on rnd key pt out cap :
  encrypt_secret rnd (Some key) (Some pt) (Some out) (Some cap) =
  if negb (key_decodes key) then
    Some (Returned (-2) (Some out) (Some cap) [decode_call key])
  else if negb (seals rnd key pt) then
    Some (Returned (-3) (Some out) (Some cap) [decode_call key; seal_call key pt])
  else if cap <? required_len pt then
    Some (Returned (-4) (Some out) (Some (required_len pt))
            [decode_call key; seal_call key pt])
  else
    let out' := overwrite out (stored_text rnd key pt cap) in
    Some (Returned 0 (Some out') (Some (N.of_nat (strlen out')))
            [decode_call key; seal_call key pt; encode_call rnd key pt cap]).
Proof.
  rewrite encrypt_secret_run.
  destruct (negb (key_decodes key)); [reflexivity|].
  destruct (negb (seals rnd key pt)); [reflexivity|].
  destruct (N.ltb_spec cap (required_len pt)) as [Hlt|Hge]; [reflexivity|].
  change (sodium_bin2base64 cap (ciphertext_bytes rnd key pt))
    with (codecs.sodium_bin2base64 cap (ciphertext_bytes rnd key pt)).
  rewrite sodium_bin2base64_stores; [reflexivity|].
  rewrite length_ciphertext_any. rewrite required_len_text in Hge. lia.
Qed.

(** The key strings the decode stage accepts. *)
Lemma key_decodes_on_iff key :
  key_decodes key = true
  <-> exists bin, map (read_as char_signed) (c_str key) = codecs.base64_text bin
                  /\ N.of_nat (length bin) <= crypto_box_PUBLICKEYBYTES.
Proof.
  unfold key_decodes.
  change sodium_base642bin with (sodium_base642bin_on char_signed).
  rewrite Z.eqb_eq, sodium_base642bin_on_read_as. split.
  - intros H.
    destruct (codecs.sodium_base642bin _ _) as [[ret bin] n] eqn:Hd.
    cbn [fst] in H. subst ret. apply sodium_base642bin_accepts in Hd.
    destruct Hd as (Hb & Hlen & _). exists bin.
    rewrite base64_text_rfc4648. auto.
  - intros (bin & Hb & Hlen).
    rewrite Hb, base64_text_rfc4648, sodium_base642bin_rfc4648 by exact Hlen.
    reflexivity.
Qed.

Lemma refused_key_on rnd key pt out cap :
  key_decodes key = false ->
  encrypt_secret rnd (Some key) (Some pt) (Some out) (Some cap)
  = Some (Returned InvalidKeyEncoding (Some out) (Some cap) [decode_call key]).
Proof.
  intros H. rewrite encrypt_secret_libsodium_on, H. reflexivity.
Qed.

(** The call returns InvalidKeyEncoding exactly when the key string as
    the decoder reads it, a byte of 0x80 or more as ['/'] where [char] is
    signed, is not the base64 text of at most [crypto_box_PUBLICKEYBYTES]
    bytes. *)
Theorem invalid_key_encoding_iff rnd key pt out cap :
  exists r,
    encrypt_secret (L := libsodium_on char_signed E seal) rnd
      (Some key) (Some pt) (Some out) (Some cap) = Some r
    /\ (status r = InvalidKeyEncoding
        <-> ~ exists bin,
                map (read_as char_signed) (c_str key) = codecs.base64_text bin
                /\ N.of_nat (length bin) <= crypto_box_PUBLICKEYBYTES).
Proof.
  rewrite encrypt_secret_libsodium_on.
  pose proof (key_decodes_on_iff key) as Hiff.
  destruct (key_decodes key); cbn [negb].
  - destruct (negb (seals rnd key pt)); [|destruct (cap <? required_len pt)];
      (eexists; split; [reflexivity|]); cbn; unfold InvalidKeyEncoding;
      (split; [discriminate | intros H; elim H; apply Hiff; reflexivity]).
  - eexists; split; [reflexivity|]. cbn. split; [|reflexivity].
    intros _ H. apply Hiff in H. discriminate H.
Qed.

(** A key string with a character to which the decoder gives no value and
    that is not the padding (a line feed, a space, a URL-safe character) is
    refused with InvalidKeyEncoding; nothing but the decoder is called and
    the caller's objects stay as they were. *)
Theorem foreign_character_returns_invalid_key rnd key c pt out cap :
  In c (c_str key) ->
  char_to_byte char_signed c = 255 ->
  c <> "="%char ->
  encrypt_secret (L := libsodium_on char_signed E seal) rnd
    (Some key) (Some pt) (Some out) (Some cap)
  = Some (Returned InvalidKeyEncoding (Some out) (Some cap) [decode_call key]).
Proof.
  intros Hin Hc Hpad. apply refused_key_on.
  apply not_true_is_false. intros H.
  apply key_decodes_on_iff in H. destruct H as (bin & Hk & _).
  apply (in_map (read_as char_signed)) in Hin.
  rewrite Hk, base64_text_rfc4648 in Hin. apply rfc4648_chars in Hin.
  rewrite <- (char_to_byte_read_as char_signed c), Hc in Hin. destruct Hin as [Hlt|Heq]; [lia|].
  apply Hpad. apply Ascii.eqb_eq. rewrite <- (read_as_padding char_signed c).
  apply Ascii.eqb_eq, Heq.
Qed.

(** The call succeeds exactly when the key string as the decoder reads it
    is the text of at most 32 bytes, the primitive returns 0, and the
    capacity is at least four characters for every three bytes of
    ciphertext, rounded up, plus one. *)
Theorem success_iff rnd key pt out cap :
  exists r,
    encrypt_secret (L := libsodium_on char_signed E seal) rnd
      (Some key) (Some pt) (Some out) (Some cap) = Some r
    /\ (status r = Success
        <-> (exists bin,
               map (read_as char_signed) (c_str key) = codecs.base64_text bin
               /\ N.of_nat (length bin) <= crypto_box_PUBLICKEYBYTES)
            /\ seals rnd key pt = true
            /\ 4 * ((N.of_nat (strlen pt) + 50) / 3) + 1 <= cap).
Proof.
  assert (Hreq : required_len pt = 4 * ((N.of_nat (strlen pt) + 50) / 3) + 1).
  { rewrite required_len_text, b64_len_of_ceil. unfold ciphertext_len.
    change crypto_box_SEALBYTES with 48. do 3 f_equal. lia. }
  rewrite <- Hreq.
  pose proof (key_decodes_on_iff key) as Hiff.
  rewrite encrypt_secret_libsodium_on.
  destruct (key_decodes key); cbn [negb].
  2: { eexists; split; [reflexivity|]. cbn. split; [discriminate|].
       intros (H & _). apply Hiff in H. discriminate H. }
  destruct (seals rnd key pt); cbn [negb].
  2: { eexists; split; [reflexivity|]. cbn. split; [discriminate|].
       intros (_ & H & _). discriminate H. }
  destruct (N.ltb_spec cap (required_len pt)) as [Hlt|Hge].
  - eexists; split; [reflexivity|]. cbn. split; [discriminate|].
    intros (_ & _ & H). lia.
  - eexists; split; [reflexivity|]. cbn. split; [|reflexivity].
    intros _. split; [apply Hiff; reflexivity|]. split; [reflexivity|exact Hge].
Qed.

(** Where the two decoders agree on the key string, the operation is the
    same over either: on every key where [char] is unsigned, and on the keys
    of 7-bit characters where it is signed. *)
Lemma encrypt_secret_decoder_ext (rnd : E) key p o n :
  sodium_base642bin_on char_signed crypto_box_PUBLICKEYBYTES (c_str key)
  = codecs.sodium_base642bin crypto_box_PUBLICKEYBYTES (c_str key) ->
  encrypt_secret (L := libsodium_on char_signed E seal) rnd (Some key) p o n
  = encrypt_secret (L := libsodium E seal) rnd (Some key) p o n.
Proof.
  intros H. destruct p as [pt|], o as [out|], n as [cap|]; try reflexivity.
  unfold encrypt_secret. fold (c_str key).
  cbn [sodium_base642bin crypto_box_seal sodium_bin2base64 libsodium_on libsodium].
  rewrite vector_key_len, H. reflexivity.
Qed.

Lemma encrypt_secret_7bit_key (rnd : E) key p o n :
  seven_bit (c_str key) = true ->
  encrypt_secret (L := libsodium_on char_signed E seal) rnd (Some key) p o n
  = encrypt_secret (L := libsodium E seal) rnd (Some key) p o n.
Proof.
  intros H. apply encrypt_secret_decoder_ext, sodium_base642bin_on_7bit, H.
Qed.

End OverLibsodiumOn.

Lemma encrypt_secret_unsigned_char E seal (rnd : E) k p o n :
  encrypt_secret (L := libsodium_on false E seal) rnd k p o n
  = encrypt_secret (L := libsodium E seal) rnd k p o n.
Proof.
  destruct k as [key|]; [|reflexivity].
  apply encrypt_secret_decoder_ext, sodium_base642bin_on_unsigned.
Qed.

(* ===================================================================== *)
(** * The macro on [size_t] *)
(* ===================================================================== *)

Lemma size_t_small x : x < 2 ^ 64 -> size_t x = x.
Proof. apply N.mod_small. Qed.

(** Line 57: for the variant the operation passes, the macro on a [size_t]
    is four characters for every three bytes, rounded up, and one for the
    terminator, modulo 2^64; where that does not wrap it is the value of
    [codecs.sodium_base64_ENCODED_LEN]. *)
Theorem encoded_len_closed_form n :
  n < 2 ^ 64 ->
  sodium_base64_ENCODED_LEN_size_t n codecs.sodium_base64_VARIANT_ORIGINAL
  = (4 * ((n + 2) / 3) + 1) mod 2 ^ 64
  /\ (4 * ((n + 2) / 3) + 1 < 2 ^ 64 ->
      sodium_base64_ENCODED_LEN_size_t n codecs.sodium_base64_VARIANT_ORIGINAL
      = codecs.sodium_base64_ENCODED_LEN n codecs.sodium_base64_VARIANT_ORIGINAL).
Proof.
  intros Hn.
  assert (H : sodium_base64_ENCODED_LEN_size_t n codecs.sodium_base64_VARIANT_ORIGINAL
              = (4 * ((n + 2) / 3) + 1) mod 2 ^ 64).
  { unfold sodium_base64_ENCODED_LEN_size_t.
    change (N.land (codecs.uint_not
                      (codecs.uint_sub
                         (N.shiftr (N.land codecs.sodium_base64_VARIANT_ORIGINAL 2) 1) 1)))
      with (N.land 0).
    cbn [N.land]. change (size_t_sub 4 0) with 4.
    assert (Hr : size_t_sub n (size_t (n / 3 * 3)) = n mod 3).
    { unfold size_t_sub. rewrite (size_t_small (n / 3 * 3)) by lia.
      unfold size_t. change (2 ^ 64) with 18446744073709551616 in *. lia. }
    rewrite Hr.
    assert (Hb : N.land (N.lor (n mod 3) (N.shiftr (n mod 3) 1)) 1 * 4
                 = 4 * ((n + 2) / 3) - n / 3 * 4).
    { assert (Hc : n mod 3 = 0 \/ n mod 3 = 1 \/ n mod 3 = 2) by lia.
      destruct Hc as [Hc|[Hc|Hc]]; rewrite Hc;
        [change (N.land (N.lor 0 (N.shiftr 0 1)) 1) with 0
        |change (N.land (N.lor 1 (N.shiftr 1 1)) 1) with 1
        |change (N.land (N.lor 2 (N.shiftr 2 1)) 1) with 1]; lia. }
    rewrite Hb. unfold size_t.
    change (2 ^ 64) with 18446744073709551616 in *.
    rewrite <- N.Div0.add_mod, N.Div0.add_mod_idemp_l.
    f_equal. lia. }
  split; [exact H|]. intros Hsmall.
  rewrite H, N.mod_small by exact Hsmall.
  rewrite ENCODED_LEN_ORIGINAL, b64_len_of_ceil. reflexivity.
Qed.

Lemma encoded_len_closed_form_witness :
  2 ^ 64 - 1 < 2 ^ 64
  /\ sodium_base64_ENCODED_LEN_size_t (2 ^ 64 - 1)
       codecs.sodium_base64_VARIANT_ORIGINAL
     = 6148914691236517205
  /\ 4 * ((53 + 2) / 3) + 1 < 2 ^ 64
  /\ sodium_base64_ENCODED_LEN_size_t 53 codecs.sodium_base64_VARIANT_ORIGINAL
     = codecs.sodium_base64_ENCODED_LEN 53 codecs.sodium_base64_VARIANT_ORIGINAL.
Proof.
  split; [reflexivity|]. split.
  - exact (proj1 (encoded_len_closed_form (2 ^ 64 - 1) eq_refl)).
  - split; [reflexivity|].
    exact (proj2 (encoded_len_closed_form 53 eq_refl) eq_refl).
Defined.

(* ===================================================================== *)
(** * Instances: a plaintext with a zero byte, a key with a byte of 0xFF *)
(* ===================================================================== *)

(** C2, counterexample: on the scenario's key pair and the plaintext memory
    "hello", NUL, "tail" the call returns Success, and the opening of the
    ciphertext it encodes yields "hello", not the ten bytes of the
    plaintext. *)
Lemma C2_zero_byte_plaintext :
  exists r out' ct,
    toy_keypair scenario_key (rev scenario_key)
    /\ c_str scenario_key_b64 = codecs.base64_text scenario_key
    /\ encrypt_secret (L := libsodium unit toy_seal) tt
         (Some scenario_key_b64) (Some hello_nul_tail)
         (Some (buffer 80)) (Some 80) = Some r
    /\ status r = Success
    /\ output_after r = Some out'
    /\ codecs.sodium_base642bin (N.of_nat (length ct)) (c_str out')
       = (0%Z, ct, N.of_nat (length ct))
    /\ toy_open ct scenario_key (rev scenario_key) = Some hello
    /\ toy_open ct scenario_key (rev scenario_key) <> Some hello_nul_tail.
Proof.
  eexists. eexists. exists (scenario_key ++ repeat "t"%char 16 ++ hello).
  split; [split; reflexivity|].
  split; [vm_compute; reflexivity|].
  split; [vm_compute; reflexivity|].
  split; [reflexivity|]. split; [reflexivity|].
  split; [vm_compute; reflexivity|].
  split; [reflexivity|]. discriminate.
Qed.

(** C6, counterexample: on the plaintext memory "hello", NUL, "tail", of
    ten bytes, the call returns Success and the ciphertext handed to the
    encoder has 53 bytes, not 10 + [crypto_box_SEALBYTES] = 58. *)
Lemma C6_zero_byte_plaintext :
  exists r ct,
    encrypt_secret (L := libsodium unit toy_seal) tt
      (Some scenario_key_b64) (Some hello_nul_tail)
      (Some (buffer 80)) (Some 80) = Some r
    /\ status r = Success
    /\ calls r = [Call_base642bin 32 scenario_key_b64;
                  Call_box_seal hello scenario_key;
                  Call_bin2base64 80 ct]
    /\ N.of_nat (length hello_nul_tail) = 10
    /\ N.of_nat (length ct) = 53
    /\ N.of_nat (length ct)
       <> N.of_nat (length hello_nul_tail) + crypto_box_SEALBYTES.
Proof.
  eexists. eexists.
  split; [vm_compute; reflexivity|].
  split; [reflexivity|]. split; [reflexivity|].
  split; [reflexivity|]. split; [reflexivity|]. discriminate.
Qed.

(** The scenario's key followed by a line feed, where [char] is signed. *)
Lemma foreign_character_returns_invalid_key_witness :
  In newline (c_str (scenario_key_b64 ++ [newline]))
  /\ char_to_byte true newline = 255
  /\ newline <> "="%char
  /\ encrypt_secret (L := libsodium_on true unit toy_seal) tt
       (Some (scenario_key_b64 ++ [newline])) (Some hello)
       (Some (buffer 80)) (Some 80)
     = Some (Returned InvalidKeyEncoding (Some (buffer 80)) (Some 80)
               [decode_call (scenario_key_b64 ++ [newline])]).
Proof.
  assert (Hin : In newline (c_str (scenario_key_b64 ++ [newline]))).
  { change (c_str (scenario_key_b64 ++ [newline]))
      with (scenario_key_b64 ++ [newline]).
    apply in_or_app. right. left. reflexivity. }
  split; [exact Hin|]. split; [reflexivity|]. split; [discriminate|].
  apply (foreign_character_returns_invalid_key true unit toy_seal tt
           (scenario_key_b64 ++ [newline]) newline hello (buffer 80) 80);
    [exact Hin | reflexivity | discriminate].
Defined.

(** The key bytes 41 41 41 FF: where [char] is signed the call goes on to
    seal under the key 00 00 3F and zero bytes; where it is unsigned it
    returns InvalidKeyEncoding. *)
Example high_byte_key_sealed :
  (exists r,
     encrypt_secret (L := libsodium_on true unit toy_seal) tt
       (Some high_byte_key) (Some hello) (Some (buffer 80)) (Some 80) = Some r
     /\ status r = Success
     /\ In (Call_box_seal hello
              (ascii_of_N 0 :: ascii_of_N 0 :: ascii_of_N 63 :: repeat NUL 29))
           (calls r))
  /\ encrypt_secret (L := libsodium_on false unit toy_seal) tt
       (Some high_byte_key) (Some hello) (Some (buffer 80)) (Some 80)
     = Some (Returned InvalidKeyEncoding (Some (buffer 80)) (Some 80)
               [decode_call high_byte_key]).
Proof.
  split; [|vm_compute; reflexivity].
  eexists. split; [vm_compute; reflexivity|]. split; [reflexivity|].
  cbn [calls In]. right. left. reflexivity.
Qed.
